(** * BankAccount (src/main.cpp): a shallow embedding and its properties

    The C++ class [BankAccount] holds two [double] balances, validates
    every update in [setAccount], and counts its live instances in the
    static [int s_count].  The embedding below keeps the shape of the
    source:

    - [double] is IEEE 754 binary64, modelled by [spec_float] of the
      Standard Library with its comparison [SFcompare]; the operators
      [<], [>], [<=], [>=] of the source are [dlt], [dgt], [dle], [dge];
    - [int] is a 32-bit two's complement integer, a [Z] reduced by
      [int_wrap] after each increment and decrement;
    - objects live in a store indexed by their address ([this]), next to
      the static counter and the text written to [cout];
    - member functions are computations in [Exec], a state monad with
      C++ exceptions ([Thrown]) and with [Undefined] for the use of an
      object that is not alive;
    - a caller of the class is a list of [Action]s executed by [run];
      [main] itself is modelled on the iterations of its loop whose
      extractions from [cin] succeed ([Entry], [main_loop]), with the
      vector as the list of the addresses of its elements; the parsing
      of the input is not modelled, and the text that [operator<<]
      writes for a [double] is a parameter. *)

From Stdlib Require Import ZArith String Ascii List Lia DecimalString.
From Stdlib Require Import Floats.SpecFloat.
From stdpp Require Import base option gmap.

Local Open Scope Z_scope.

(** ** The type [double] *)

Module Double.

(** binary64: 53 bits of precision, exponents below 1024.  Every value
    of the C++ type is a [spec_float] that satisfies [is_binary64];
    the functions below are defined on all of [spec_float]. *)
Abbreviation double := spec_float.

Definition prec : Z := 53.
Definition emax : Z := 1024.

Definition is_binary64 (x : double) : bool := valid_binary prec emax x.

(** [a < b], [a > b], [a <= b], [a >= b] of C++; each is false as soon
    as one side is NaN. *)
Definition dlt (a b : double) : bool := SFltb a b.
Definition dgt (a b : double) : bool := SFltb b a.
Definition dle (a b : double) : bool := SFleb a b.
Definition dge (a b : double) : bool := SFleb b a.

Definition is_nan (a : double) : bool :=
  match a with S754_nan => true | _ => false end.

(** An integer literal that fits in 53 bits, as the double it denotes
    (mantissa normalised to 53 bits). *)
Definition of_pos (p : positive) : double :=
  let d := Z.pos (digits2_pos p) in
  S754_finite false (Pos.iter xO p (Z.to_pos (prec - d))) (d - prec).

Definition NaN : double := S754_nan.
Definition infinity : double := S754_infinity false.

End Double.
Export Double.

Declare Scope double_scope.
Delimit Scope double_scope with dbl.
Infix "<."  := dlt (at level 70, no associativity) : double_scope.
Infix ">."  := dgt (at level 70, no associativity) : double_scope.
Infix "<=." := dle (at level 70, no associativity) : double_scope.
Infix ">=." := dge (at level 70, no associativity) : double_scope.

(** ** The type [int] *)

Module Int.

Definition INT_MAX : Z := 2147483647.
Definition INT_MIN : Z := -2147483648.

(** Reduction of an integer into the range of [int].  C++ leaves the
    overflow of a signed increment undefined; the model follows the
    two's complement arithmetic of the machine, on which [INT_MAX + 1]
    is [INT_MIN].  Whatever an implementation does there, the result is
    an [int] and so cannot be [INT_MAX + 1]. *)
Definition int_wrap (z : Z) : Z := (z + 2147483648) mod 4294967296 - 2147483648.

(** [++x] and [--x]. *)
Definition int_incr (x : Z) : Z := int_wrap (x + 1).
Definition int_decr (x : Z) : Z := int_wrap (x - 1).

Definition in_int (z : Z) : Prop := INT_MIN <= z <= INT_MAX.

End Int.
Export Int.

(** ** Error classification and the exception class *)

Inductive AccountError :=
| InvalidAvailableBelowMin
| InvalidPresentBelowMin
| AvailableExceedsPresent
| Unknown.

Record BankAccountException := mkException {
  what  : string;
  type_ : AccountError
}.

(** [explicit BankAccountException(const string& msg,
                                   AccountError type = AccountError::Unknown)] *)
Definition BankAccountException_ctor (msg : string) (type : option AccountError)
  : BankAccountException :=
  {| what := msg; type_ := default Unknown type |}.

(** ** The machine: object store, static counter, console *)

Abbreviation addr := nat.

Record BankAccount := mkAccount {
  available_ : double;
  present_   : double
}.

Record Machine := mkMachine {
  s_count : Z;
  objects : gmap nat BankAccount;
  cout    : list string
}.

(** [int BankAccount::s_count = 0;] and nothing constructed or printed. *)
Definition boot : Machine :=
  {| s_count := 0; objects := ∅; cout := [] |}.

Inductive Outcome (A : Type) :=
| Returned (a : A)
| Thrown (e : BankAccountException)
| Undefined.
Arguments Returned {A} a.
Arguments Thrown {A} e.
Arguments Undefined {A}.

Definition Exec (A : Type) : Type := Machine -> Outcome A * Machine.

Definition ret {A} (a : A) : Exec A := fun m => (Returned a, m).

Definition bind {A B} (c : Exec A) (k : A -> Exec B) : Exec B :=
  fun m =>
    match c m with
    | (Returned a, m') => k a m'
    | (Thrown e, m')   => (Thrown e, m')
    | (Undefined, m')  => (Undefined, m')
    end.

Definition throw {A} (e : BankAccountException) : Exec A :=
  fun m => (Thrown e, m).

Definition try_catch {A} (c : Exec A) (handler : BankAccountException -> Exec A)
  : Exec A :=
  fun m =>
    match c m with
    | (Thrown e, m') => handler e m'
    | r => r
    end.

Definition when (b : bool) (c : Exec unit) : Exec unit :=
  if b then c else ret tt.

Notation "x <- c ;; k" := (bind c (fun x => k))
  (at level 100, c at next level, right associativity).
Notation "c ;; k" := (bind c (fun _ => k))
  (at level 100, right associativity).

(** *** Primitive accesses *)

Definition read_available_ (this : addr) : Exec double :=
  fun m => match objects m !! this with
           | Some o => (Returned (available_ o), m)
           | None => (Undefined, m)
           end.

Definition read_present_ (this : addr) : Exec double :=
  fun m => match objects m !! this with
           | Some o => (Returned (present_ o), m)
           | None => (Undefined, m)
           end.

Definition with_objects (f : gmap nat BankAccount -> gmap nat BankAccount)
  (m : Machine) : Machine :=
  {| s_count := s_count m; objects := f (objects m); cout := cout m |}.

Definition write_available_ (this : addr) (v : double) : Exec unit :=
  fun m => match objects m !! this with
           | Some o =>
               (Returned tt,
                with_objects <[this := {| available_ := v; present_ := present_ o |}]> m)
           | None => (Undefined, m)
           end.

Definition write_present_ (this : addr) (v : double) : Exec unit :=
  fun m => match objects m !! this with
           | Some o =>
               (Returned tt,
                with_objects <[this := {| available_ := available_ o; present_ := v |}]> m)
           | None => (Undefined, m)
           end.

(** The member initialisation that opens every constructor: the two
    fields of the object at [this] receive their first values. *)
Definition init_members (this : addr) (a p : double) : Exec unit :=
  fun m => (Returned tt,
            with_objects <[this := {| available_ := a; present_ := p |}]> m).

(** The storage of a destroyed object is given back. *)
Definition release (this : addr) : Exec unit :=
  fun m => match objects m !! this with
           | Some _ => (Returned tt, with_objects (delete this) m)
           | None => (Undefined, m)
           end.

Definition incr_s_count : Exec unit :=
  fun m => (Returned tt,
            {| s_count := int_incr (s_count m); objects := objects m; cout := cout m |}).

Definition decr_s_count : Exec unit :=
  fun m => (Returned tt,
            {| s_count := int_decr (s_count m); objects := objects m; cout := cout m |}).

(** [cout << s] *)
Definition print (s : string) : Exec unit :=
  fun m => (Returned tt,
            {| s_count := s_count m; objects := objects m; cout := cout m ++ [s] |}).

(** ** class BankAccount *)

Local Open Scope string_scope.

(** [static constexpr double MIN_DEFAULT_AVAILABLE_BALANCE = 5.00;]
    [static constexpr double MIN_DEFAULT_PRESENT_BALANCE   = 5.00;] *)
Definition MIN_DEFAULT_AVAILABLE_BALANCE : double := of_pos 5.
Definition MIN_DEFAULT_PRESENT_BALANCE   : double := of_pos 5.

Definition newline : string := String (ascii_of_nat 10) EmptyString.

(** [void setAccount(double available, double present)]: the three
    checks in the order of the source, each throwing before any field is
    written; then the two assignments. *)
Definition setAccount (this : addr) (available present : double) : Exec unit :=
  when (available <. MIN_DEFAULT_AVAILABLE_BALANCE)%dbl
    (throw (BankAccountException_ctor "Available balance below minimum $5.00"
              (Some InvalidAvailableBelowMin))) ;;
  when (present <. MIN_DEFAULT_PRESENT_BALANCE)%dbl
    (throw (BankAccountException_ctor "Present balance below minimum $5.00"
              (Some InvalidPresentBelowMin))) ;;
  when (available >. present)%dbl
    (throw (BankAccountException_ctor "Available balance cannot exceed present balance"
              (Some AvailableExceedsPresent))) ;;
  write_available_ this available ;;
  write_present_ this present.

(** [double available() const] and [double present() const] *)
Definition available (this : addr) : Exec double := read_available_ this.
Definition present   (this : addr) : Exec double := read_present_ this.

(** [static int getObjectCount()] *)
Definition getObjectCount (m : Machine) : Z := s_count m.

(** [BankAccount()] *)
Definition BankAccount_default (this : addr) : Exec unit :=
  init_members this MIN_DEFAULT_AVAILABLE_BALANCE MIN_DEFAULT_PRESENT_BALANCE ;;
  incr_s_count.

(** [BankAccount(double available, double present)]: no member
    initialiser list, so both fields start from their default member
    initialisers (lines 98-99); then the body. *)
Definition BankAccount_values (this : addr) (available present : double) : Exec unit :=
  init_members this MIN_DEFAULT_AVAILABLE_BALANCE MIN_DEFAULT_PRESENT_BALANCE ;;
  try_catch (setAccount this available present)
    (fun ex =>
       write_available_ this MIN_DEFAULT_AVAILABLE_BALANCE ;;
       write_present_ this MIN_DEFAULT_PRESENT_BALANCE ;;
       print "[Create] " ;;
       print (what ex) ;;
       print (" -> account set to defaults ($5.00, $5.00)" ++ newline)) ;;
  incr_s_count.

(** [BankAccount(const BankAccount& other)] *)
Definition BankAccount_copy (this other : addr) : Exec unit :=
  a <- read_available_ other ;;
  p <- read_present_ other ;;
  init_members this a p ;;
  incr_s_count.

(** [BankAccount(BankAccount&& other) noexcept]: the same member
    initialisers as the copy constructor; [other] is only read. *)
Definition BankAccount_move (this other : addr) : Exec unit :=
  a <- read_available_ other ;;
  p <- read_present_ other ;;
  init_members this a p ;;
  incr_s_count.

(** [~BankAccount() { --s_count; }], after which the object is gone. *)
Definition BankAccount_dtor (this : addr) : Exec unit :=
  decr_s_count ;;
  release this.

(** The three conditions of the data model, as C++ would evaluate them
    on the fields of an object. *)
Definition invariant (o : BankAccount) : bool :=
  (available_ o >=. MIN_DEFAULT_AVAILABLE_BALANCE)%dbl
  && (present_ o >=. MIN_DEFAULT_PRESENT_BALANCE)%dbl
  && (available_ o <=. present_ o)%dbl.

(** ** Programs over the class

    What a caller of the class can do, one action at a time: construct
    an object in storage that holds none, destroy a live object, or
    try an update and catch its exception as [main] does in its case 3
    (lines 161-170; the balances that [main] prints around the call are
    left out). *)
Inductive Action :=
| NewDefault (this : addr)
| NewValues (this : addr) (a p : double)
| NewCopy (this other : addr)
| NewMove (this other : addr)
| Destroy (this : addr)
| Update (this : addr) (a p : double).

Definition require_fresh (this : addr) : Exec unit :=
  fun m => match objects m !! this with
           | None => (Returned tt, m)
           | Some _ => (Undefined, m)
           end.

Definition perform (act : Action) : Exec unit :=
  match act with
  | NewDefault this => require_fresh this ;; BankAccount_default this
  | NewValues this a p => require_fresh this ;; BankAccount_values this a p
  | NewCopy this other => require_fresh this ;; BankAccount_copy this other
  | NewMove this other => require_fresh this ;; BankAccount_move this other
  | Destroy this => BankAccount_dtor this
  | Update this a p =>
      try_catch (setAccount this a p)
        (fun ex =>
           print "[Update blocked] " ;;
           print (what ex) ;;
           print (" -> object left unchanged." ++ newline))
  end.

Fixpoint run (acts : list Action) : Exec unit :=
  match acts with
  | [] => ret tt
  | act :: rest => perform act ;; run rest
  end.

Definition is_construction (act : Action) : bool :=
  match act with
  | NewDefault _ | NewValues _ _ _ | NewCopy _ _ | NewMove _ _ => true
  | Destroy _ | Update _ _ _ => false
  end.

Definition is_destruction (act : Action) : bool :=
  match act with
  | Destroy _ => true
  | _ => false
  end.

(** N and M of a program. *)
Definition constructions (acts : list Action) : Z :=
  Z.of_nat (length (List.filter is_construction acts)).
Definition destructions (acts : list Action) : Z :=
  Z.of_nat (length (List.filter is_destruction acts)).

(** ** Sample values *)

Definition d5  : double := of_pos 5.
Definition d10 : double := of_pos 10.
Definition d20 : double := of_pos 20.
Definition d3  : double := of_pos 3.
Definition d1  : double := of_pos 1.
Definition d15 : double := of_pos 15.
Definition d30 : double := of_pos 30.

Definition slot0 : addr := 0%nat.
Definition slot1 : addr := 1%nat.

(** An account at [slot0] holding (10, 20), the only live object. *)
Definition one_account : Machine :=
  {| s_count := 1;
     objects := {[ slot0 := {| available_ := d10; present_ := d20 |} ]};
     cout := [] |}.

(** ** The rejections of [setAccount] *)

Definition below_available : BankAccountException :=
  {| what := "Available balance below minimum $5.00";
     type_ := InvalidAvailableBelowMin |}.
Definition below_present : BankAccountException :=
  {| what := "Present balance below minimum $5.00";
     type_ := InvalidPresentBelowMin |}.
Definition exceeds_present : BankAccountException :=
  {| what := "Available balance cannot exceed present balance";
     type_ := AvailableExceedsPresent |}.

(** The exception that [setAccount a p] throws, if any: read off the
    three [if]s of the source. *)
Definition rejection (a p : double) : option BankAccountException :=
  if (a <. MIN_DEFAULT_AVAILABLE_BALANCE)%dbl then Some below_available
  else if (p <. MIN_DEFAULT_PRESENT_BALANCE)%dbl then Some below_present
  else if (a >. p)%dbl then Some exceeds_present
  else None.

(** What [BankAccount(a, p)] leaves in the new object and on the
    console: the arguments and nothing printed when [setAccount] accepts
    them, the defaults and the notice when it throws [e]. *)
Definition notice (e : BankAccountException) : list string :=
  ["[Create] "; what e; " -> account set to defaults ($5.00, $5.00)" ++ newline].

Definition defaults : BankAccount :=
  {| available_ := MIN_DEFAULT_AVAILABLE_BALANCE;
     present_ := MIN_DEFAULT_PRESENT_BALANCE |}.

(** The machine after a constructor that left [o] at [this] and printed
    [text]. *)
Definition constructed (this : addr) (o : BankAccount) (text : list string)
  (m : Machine) : Machine :=
  {| s_count := int_incr (s_count m);
     objects := <[this := o]> (objects m);
     cout := cout m ++ text |}.

(** The change of the number of live objects that an action makes. *)
Definition delta (act : Action) : Z :=
  if is_construction act then 1 else if is_destruction act then -1 else 0.

(** A second machine: an account at [slot1] holding the defaults, after
    some output. *)
Definition other_account : Machine :=
  {| s_count := 7;
     objects := {[ slot1 := defaults ]};
     cout := ["Goodbye!"] |}.

(** Three accounts created, one destroyed, one update refused. *)
Definition three_minus_one : list Action :=
  [NewValues slot0 d10 d20; NewDefault slot1; NewCopy 2%nat slot0;
   Update slot0 d1 d20; Destroy slot1].

(** 2^31 constructions in a row, at the addresses 0, 1, 2, ... *)
Definition many : nat := Z.to_nat 2147483648.
(** One construction less: the counter stands at [INT_MAX]. *)
Definition almost : nat := Z.to_nat 2147483647.
Definition construct_many (n : nat) : list Action := map NewDefault (seq 0 n).

(** An action none of whose [double] arguments is NaN. *)
Definition nan_free (act : Action) : bool :=
  match act with
  | NewValues _ a p | Update _ a p => negb (is_nan a) && negb (is_nan p)
  | NewDefault _ | NewCopy _ _ | NewMove _ _ | Destroy _ => true
  end.

(** Every live object of the machine satisfies the invariant. *)
Definition all_valid (m : Machine) : Prop :=
  forall (i : addr) (o : BankAccount), objects m !! i = Some o -> invariant o = true.

(** Two accounts, (10, 20) at [slot0] and the defaults at [slot1]. *)
Definition two_accounts : Machine :=
  {| s_count := 2;
     objects := <[ slot1 := defaults ]>
                  {[ slot0 := {| available_ := d10; present_ := d20 |} ]};
     cout := [] |}.

(** ** [print()], [printMenu()] and [main]

    [operator<<] writes an [int] and a [size_t] in decimal; the text it
    writes for a [double] is left to the library and is the parameter
    [show] of what follows. *)

Definition show_int (z : Z) : string := NilZero.string_of_int (Z.to_int z).
Definition show_size (n : nat) : string := NilZero.string_of_uint (Nat.to_uint n).

Definition undefined {A} : Exec A := fun m => (Undefined, m).

(** The call [BankAccount::getObjectCount()]. *)
Definition call_getObjectCount : Exec Z :=
  fun m => (Returned (getObjectCount m), m).

(** [void print() const] *)
Definition BankAccount_print (show : double -> string) (this : addr) : Exec unit :=
  print "Account{ available: $" ;;
  a <- read_available_ this ;;
  print (show a) ;;
  print ", present: $" ;;
  p <- read_present_ this ;;
  print (show p) ;;
  print (" }" ++ newline).

(** [void printMenu()] *)
Definition printMenu : Exec unit :=
  print (newline ++ "=== Bank Account Test Menu ===" ++ newline) ;;
  print ("1) Print number of BankAccount objects in memory" ++ newline) ;;
  print ("2) Create an account (you choose values)" ++ newline) ;;
  print ("3) Try to update an existing account (test exceptions)" ++ newline) ;;
  print ("4) List all accounts" ++ newline) ;;
  print ("5) Quit" ++ newline) ;;
  print "Select: ".

(** [std::vector<BankAccount> accounts]: the addresses of its elements,
    in order. [accounts[idx]] is undefined outside the vector. *)
Definition at_index {A} (v : list addr) (idx : nat) (k : addr -> Exec A) : Exec A :=
  match v !! idx with
  | Some this => k this
  | None => undefined
  end.

(** The calls that a reallocation makes on the class: each element is
    move-constructed into the new block and the old one is destroyed
    (the move constructor is [noexcept], so elements are moved), element
    by element as libstdc++ relocates. *)
Fixpoint relocate (dst src : list addr) : list Action :=
  match dst, src with
  | d :: ds, s :: ss => NewMove d s :: Destroy s :: relocate ds ss
  | _, _ => []
  end.

(** [accounts.push_back(x)]: the new element is copy-constructed from
    [x]; when the capacity is exhausted ([grows], the library decides)
    this happens in a new block, into which the old elements are
    relocated.  Storage is taken from [base] upwards.  The result is the
    vector and the first address not used. *)
Definition push_back (grows : bool) (v : list addr) (x : addr) (base : addr)
  : Exec (list addr * addr) :=
  if grows then
    let block := seq base (length v) in
    let slot := (base + length v)%nat in
    run (NewCopy slot x :: relocate block v) ;;
    ret ((block ++ [slot])%list, S slot)
  else
    run [NewCopy base x] ;;
    ret ((v ++ [base])%list, S base).

(** The destructor of the vector destroys its elements. *)
Definition destroy_all (v : list addr) : Exec unit := run (map Destroy v).

(** What [main] holds between two iterations: the vector, and the first
    address that no object has used. *)
Record Session := mkSession {
  accounts : list addr;
  brk : addr
}.

(** What one iteration reads from [cin], each extraction succeeding:
    the option, and for the options that ask for them the two balances
    and the index; [grows] says whether [push_back] reallocates. *)
Record Entry := mkEntry {
  opt : Z;
  in_a : double;
  in_p : double;
  in_idx : nat;
  grows : bool
}.

(** [case 1] of [main] *)
Definition main_case1 : Exec unit :=
  print "Objects currently in memory: " ;;
  c <- call_getObjectCount ;;
  print (show_int c) ;;
  print newline.

(** [case 2] of [main]; the local [acc] lives at [brk s] and is
    destroyed when the block is left. *)
Definition main_case2 (show : double -> string) (a p : double) (grows : bool)
  (s : Session) : Exec Session :=
  print "Enter available and present balances: " ;;
  before <- call_getObjectCount ;;
  print "Count before create: " ;; print (show_int before) ;; print newline ;;
  let acc := brk s in
  perform (NewValues acc a p) ;;
  r <- push_back grows (accounts s) acc (S acc) ;;
  print "Created: " ;;
  match last (fst r) with
  | Some back => BankAccount_print show back
  | None => undefined
  end ;;
  after <- call_getObjectCount ;;
  print "Count after create: " ;; print (show_int after) ;; print newline ;;
  perform (Destroy acc) ;;
  ret {| accounts := fst r; brk := snd r |}.

(** [case 3] of [main] *)
Definition main_case3 (show : double -> string) (v : list addr) (idx : nat)
  (a p : double) : Exec unit :=
  match v with
  | [] => print ("No accounts yet. Create one first (option 2)." ++ newline)
  | _ :: _ =>
      print "Choose account index [0.." ;;
      print (show_size (length v - 1)) ;;
      print "]: " ;;
      if (length v <=? idx)%nat then print ("Invalid index." ++ newline)
      else
        print "Enter NEW available and present balances: " ;;
        print "Before update: " ;;
        at_index v idx (BankAccount_print show) ;;
        try_catch
          (at_index v idx (fun this => setAccount this a p) ;;
           print "Update OK. After update: " ;;
           at_index v idx (BankAccount_print show))
          (fun ex =>
             print "[Update blocked] " ;;
             print (what ex) ;;
             print (" -> object left unchanged." ++ newline) ;;
             print "After failed update: " ;;
             at_index v idx (BankAccount_print show))
  end.

(** The [for] loop of [case 4], from index [i] on. *)
Fixpoint list_from (show : double -> string) (i : nat) (v : list addr) : Exec unit :=
  match v with
  | [] => ret tt
  | this :: rest =>
      print (show_size i) ;; print ": " ;;
      BankAccount_print show this ;;
      list_from show (S i) rest
  end.

(** [case 4] of [main] *)
Definition main_case4 (show : double -> string) (v : list addr) : Exec unit :=
  match v with
  | [] => print ("(no accounts)" ++ newline)
  | _ :: _ => list_from show 0%nat v
  end.

(** The [while] loop of [main] on the iterations that [input] feeds.
    When the input ends, [cin >> opt] fails after the menu and [main]
    returns; option 5 leaves the loop and says goodbye. *)
Fixpoint main_loop (show : double -> string) (input : list Entry) (s : Session)
  : Exec Session :=
  match input with
  | [] => printMenu ;; ret s
  | e :: rest =>
      printMenu ;;
      if (opt e =? 1)%Z then main_case1 ;; main_loop show rest s
      else if (opt e =? 2)%Z then
        s' <- main_case2 show (in_a e) (in_p e) (grows e) s ;;
        main_loop show rest s'
      else if (opt e =? 3)%Z then
        main_case3 show (accounts s) (in_idx e) (in_a e) (in_p e) ;;
        main_loop show rest s
      else if (opt e =? 4)%Z then main_case4 show (accounts s) ;; main_loop show rest s
      else if (opt e =? 5)%Z then print ("Goodbye!" ++ newline) ;; ret s
      else print ("Unknown option." ++ newline) ;; main_loop show rest s
  end.

(** [int main()]: the loop on an empty vector, then the destruction of
    the vector. *)
Definition main (show : double -> string) (input : list Entry) : Exec unit :=
  s <- main_loop show input {| accounts := []; brk := 0%nat |} ;;
  destroy_all (accounts s).

(** The five pieces that [print()] writes for an object. *)
Definition printout (show : double -> string) (o : BankAccount) : list string :=
  ["Account{ available: $"; show (available_ o); ", present: $";
   show (present_ o); " }" ++ newline].

(** The values of the elements of a vector. *)
Definition contents (m : Machine) (v : list addr) : list (option BankAccount) :=
  map (fun this => objects m !! this) v.

(** The live objects are exactly the elements of the vector, each once,
    all below [brk], and the counter counts them. *)
Definition consistent (m : Machine) (s : Session) : Prop :=
  NoDup (accounts s)
  /\ (forall i : addr, i ∈ accounts s -> (i < brk s)%nat)
  /\ (forall i : addr, i ∈ accounts s <-> is_Some (objects m !! i))
  /\ s_count m = int_wrap (Z.of_nat (length (accounts s))).

(** The machine after [text] was written to [cout]. *)
Definition say (text : list string) (m : Machine) : Machine :=
  {| s_count := s_count m; objects := objects m; cout := (cout m ++ text)%list |}.

(** What [case 3] writes before it looks at the account. *)
Definition update_prompt (v : list addr) : list string :=
  ["Choose account index [0.."; show_size (length v - 1); "]: ";
   "Enter NEW available and present balances: "; "Before update: "].

(** One line per element, numbered from [i] on. *)
Fixpoint listing (show : double -> string) (m : Machine) (i : nat) (v : list addr)
  : list string :=
  match v with
  | [] => []
  | this :: rest =>
      match objects m !! this with
      | Some o => ([show_size i; ": "] ++ printout show o
                   ++ listing show m (S i) rest)%list
      | None => []
      end
  end.

(** The number of iterations with option 2 that the loop executes: those
    before the first option 5. *)
Fixpoint creations (input : list Entry) : nat :=
  match input with
  | [] => 0%nat
  | e :: rest =>
      if (opt e =? 5)%Z then 0%nat
      else if (opt e =? 2)%Z then S (creations rest)
      else creations rest
  end.

(** The session that a run of the loop returns, the empty one if it
    does not return. *)
Definition fst_session (r : Outcome Session * Machine) : Session :=
  match r with
  | (Returned s, _) => s
  | _ => {| accounts := []; brk := 0%nat |}
  end.

(** An iteration whose balances are numbers. *)
Definition entry_nan_free (e : Entry) : bool :=
  negb (is_nan (in_a e)) && negb (is_nan (in_p e)).

(** A stand-in for the text of a [double], for the examples. *)
Definition show_class (x : double) : string :=
  match x with
  | S754_nan => "nan"
  | S754_infinity _ => "inf"
  | S754_zero _ => "0"
  | S754_finite _ _ _ => "number"
  end.

Definition sample_input : list Entry :=
  [ {| opt := 2; in_a := d10; in_p := d20; in_idx := 0%nat; grows := true |};
    {| opt := 2; in_a := d3; in_p := d20; in_idx := 0%nat; grows := true |};
    {| opt := 3; in_a := d1; in_p := d20; in_idx := 0%nat; grows := false |};
    {| opt := 3; in_a := d15; in_p := d30; in_idx := 1%nat; grows := false |};
    {| opt := 9; in_a := d1; in_p := d1; in_idx := 0%nat; grows := false |};
    {| opt := 1; in_a := d1; in_p := d1; in_idx := 0%nat; grows := false |};
    {| opt := 4; in_a := d1; in_p := d1; in_idx := 0%nat; grows := false |};
    {| opt := 5; in_a := d1; in_p := d1; in_idx := 0%nat; grows := false |} ].

(** ** First checks of the model *)

Example MIN_is_5 :
  MIN_DEFAULT_AVAILABLE_BALANCE = S754_finite false 5629499534213120 (-50)
  /\ is_binary64 MIN_DEFAULT_AVAILABLE_BALANCE = true.
Proof. split; reflexivity. Qed.

Example scenario1 :
  exists m, BankAccount_values slot0 d10 d20 boot = (Returned tt, m)
    /\ available slot0 m = (Returned d10, m) /\ present slot0 m = (Returned d20, m)
    /\ getObjectCount m = 1.
Proof. eexists. repeat split; vm_compute; reflexivity. Qed.

(** ** Facts about the comparisons of [double] *)

Section Comparisons.

Lemma SFcompare_antisym (a b : double) (c : comparison) :
  SFcompare a b = Some c -> SFcompare b a = Some (CompOpp c).
Proof.
  destruct a as [sa|sa| |sa ma ea], b as [sb|sb| |sb mb eb]; simpl;
    try discriminate;
    try (intros [= <-]; reflexivity);
    try (destruct sa; intros [= <-]; reflexivity);
    try (destruct sb; intros [= <-]; reflexivity);
    try (destruct sa, sb; intros [= <-]; reflexivity).
  intros [= <-]. f_equal.
  rewrite (Z.compare_antisym ea eb).
  change (Pos.compare_cont Eq mb ma) with (Pos.compare mb ma).
  change (Pos.compare_cont Eq ma mb) with (Pos.compare ma mb).
  rewrite (Pos.compare_antisym ma mb).
  destruct sa, sb; simpl; try reflexivity;
    destruct (ea ?= eb)%Z; simpl; try reflexivity;
    destruct (ma ?= mb)%positive; reflexivity.
Qed.

Lemma SFcompare_nan_free (a b : double) :
  is_nan a = false -> is_nan b = false -> exists c, SFcompare a b = Some c.
Proof.
  destruct a as [sa|sa| |sa ma ea], b as [sb|sb| |sb mb eb]; simpl;
    intros Ha Hb; try discriminate; eauto.
Qed.

(** [x <= y] excludes [y < x]. *)
Lemma SFleb_SFltb (x y : double) : SFleb x y = true -> SFltb y x = false.
Proof.
  unfold SFleb, SFltb. destruct (SFcompare x y) as [c|] eqn:E; [|discriminate].
  rewrite (SFcompare_antisym _ _ _ E). destruct c; simpl; congruence.
Qed.

(** Without NaN the order is total: not [x < y] gives [y <= x]. *)
Lemma SFltb_SFleb (x y : double) :
  is_nan x = false -> is_nan y = false -> SFltb x y = false -> SFleb y x = true.
Proof.
  intros Hx Hy. destruct (SFcompare_nan_free x y Hx Hy) as [c E].
  unfold SFleb, SFltb. rewrite E, (SFcompare_antisym _ _ _ E).
  destruct c; simpl; congruence.
Qed.

Lemma dge_dlt (a b : double) : (a >=. b)%dbl = true -> (a <. b)%dbl = false.
Proof. apply SFleb_SFltb. Qed.

Lemma dle_dgt (a b : double) : (a <=. b)%dbl = true -> (a >. b)%dbl = false.
Proof. apply SFleb_SFltb. Qed.

Lemma dlt_dge (a b : double) :
  is_nan a = false -> is_nan b = false ->
  (a <. b)%dbl = false -> (a >=. b)%dbl = true.
Proof. apply SFltb_SFleb. Qed.

Lemma dgt_dle (a b : double) :
  is_nan a = false -> is_nan b = false ->
  (a >. b)%dbl = false -> (a <=. b)%dbl = true.
Proof. intros Ha Hb. apply SFltb_SFleb; assumption. Qed.

(** Every comparison with NaN is false. *)
Lemma nan_compares_false (b : double) :
  (NaN <. b)%dbl = false /\ (NaN >. b)%dbl = false
  /\ (NaN <=. b)%dbl = false /\ (NaN >=. b)%dbl = false.
Proof. destruct b; repeat split; reflexivity. Qed.

End Comparisons.

(** ** Facts about [int] *)

Section IntArith.

Lemma int_wrap_id (z : Z) : in_int z -> int_wrap z = z.
Proof.
  unfold in_int, INT_MIN, INT_MAX, int_wrap. intros H.
  rewrite Z.mod_small by lia. lia.
Qed.

Lemma int_wrap_add_l (x y : Z) : int_wrap (int_wrap x + y) = int_wrap (x + y).
Proof.
  unfold int_wrap. f_equal.
  replace ((x + 2147483648) mod 4294967296 - 2147483648 + y + 2147483648)
    with ((x + 2147483648) mod 4294967296 + y) by lia.
  rewrite Z.add_mod_idemp_l by lia. f_equal. lia.
Qed.

Lemma int_incr_below_max (x : Z) : INT_MIN <= x < INT_MAX -> int_incr x = x + 1.
Proof.
  unfold int_incr, INT_MIN, INT_MAX. intros H.
  apply int_wrap_id. unfold in_int, INT_MIN, INT_MAX. lia.
Qed.

Lemma int_decr_above_min (x : Z) : INT_MIN < x <= INT_MAX -> int_decr x = x - 1.
Proof.
  unfold int_decr, INT_MIN, INT_MAX. intros H.
  apply int_wrap_id. unfold in_int, INT_MIN, INT_MAX. lia.
Qed.

Example int_incr_at_max : int_incr INT_MAX = INT_MIN.
Proof. reflexivity. Qed.

End IntArith.

(** ** What [setAccount] computes *)

Section SetAccount.

Lemma setAccount_eq (this : addr) (a p : double) (m : Machine) :
  setAccount this a p m =
    match rejection a p with
    | Some e => (Thrown e, m)
    | None =>
        match objects m !! this with
        | Some _ =>
            (Returned tt,
             with_objects <[this := {| available_ := a; present_ := p |}]> m)
        | None => (Undefined, m)
        end
    end.
Proof.
  unfold setAccount, rejection, bind, when, throw, ret.
  destruct (a <. MIN_DEFAULT_AVAILABLE_BALANCE)%dbl; [reflexivity|].
  destruct (p <. MIN_DEFAULT_PRESENT_BALANCE)%dbl; [reflexivity|].
  destruct (a >. p)%dbl; [reflexivity|].
  unfold write_available_, write_present_.
  destruct (objects m !! this) as [o|] eqn:E; [|reflexivity].
  unfold with_objects; simpl. rewrite lookup_insert_eq. simpl.
  rewrite insert_insert_eq. reflexivity.
Qed.

Lemma rejection_kind (a p : double) (e : BankAccountException) :
  rejection a p = Some e ->
  e = below_available \/ e = below_present \/ e = exceeds_present.
Proof.
  unfold rejection.
  destruct (a <. MIN_DEFAULT_AVAILABLE_BALANCE)%dbl; [intros [= <-]; auto|].
  destruct (p <. MIN_DEFAULT_PRESENT_BALANCE)%dbl; [intros [= <-]; auto|].
  destruct (a >. p)%dbl; [intros [= <-]; auto|discriminate].
Qed.

Lemma setAccount_thrown (this : addr) (a p : double) (m m' : Machine)
  (e : BankAccountException) :
  setAccount this a p m = (Thrown e, m') -> rejection a p = Some e /\ m' = m.
Proof.
  rewrite setAccount_eq. destruct (rejection a p) as [e0|].
  - intros [= -> ->]. auto.
  - destruct (objects m !! this); discriminate.
Qed.

Lemma setAccount_returned (this : addr) (a p : double) (m m' : Machine) :
  setAccount this a p m = (Returned tt, m') ->
  rejection a p = None
  /\ m' = with_objects <[this := {| available_ := a; present_ := p |}]> m.
Proof.
  rewrite setAccount_eq. destruct (rejection a p) as [e0|]; [discriminate|].
  destruct (objects m !! this); [|discriminate].
  intros [= <-]. auto.
Qed.

End SetAccount.

(** ** The validated mutator *)

(** C1.  For all amounts [a], [p] with [a >= 5.00], [p >= 5.00] and
    [a <= p], [setAccount(a, p)] on any live account returns normally
    (it neither throws nor is undefined), and afterwards [available()]
    and [present()] return exactly [a] and [p]. *)
Theorem setAccount_accepts_valid (this : addr) (a p : double) (m : Machine) :
  is_Some (objects m !! this) ->
  (a >=. MIN_DEFAULT_AVAILABLE_BALANCE)%dbl = true ->
  (p >=. MIN_DEFAULT_PRESENT_BALANCE)%dbl = true ->
  (a <=. p)%dbl = true ->
  exists m',
    setAccount this a p m = (Returned tt, m')
    /\ available this m' = (Returned a, m')
    /\ present this m' = (Returned p, m').
Proof.
  intros [o Ho] Ha Hp Hap.
  rewrite setAccount_eq. unfold rejection.
  rewrite (dge_dlt _ _ Ha), (dge_dlt _ _ Hp), (dle_dgt _ _ Hap), Ho.
  eexists. split; [reflexivity|].
  unfold available, present, read_available_, read_present_, with_objects; simpl.
  rewrite lookup_insert_eq. simpl. split; reflexivity.
Qed.

Lemma setAccount_accepts_valid_witness :
  exists m',
    setAccount slot0 d15 d30 one_account = (Returned tt, m')
    /\ available slot0 m' = (Returned d15, m')
    /\ present slot0 m' = (Returned d30, m').
Proof.
  apply (setAccount_accepts_valid slot0 d15 d30 one_account).
  - exists {| available_ := d10; present_ := d20 |}. vm_compute. reflexivity.
  - vm_compute. reflexivity.
  - vm_compute. reflexivity.
  - vm_compute. reflexivity.
Defined.

(** C2.  [setAccount] checks its three rules in a fixed order and the
    first failing rule names the rejection: [a < 5.00] rejects with
    [InvalidAvailableBelowMin] whatever [p] is; otherwise [p < 5.00]
    rejects with [InvalidPresentBelowMin]; otherwise [a > p] rejects with
    [AvailableExceedsPresent]; in every remaining case the call on a
    live account is accepted. *)
Theorem setAccount_validation_order (this : addr) (a p : double) (m : Machine) :
  ((a <. MIN_DEFAULT_AVAILABLE_BALANCE)%dbl = true ->
     exists e, setAccount this a p m = (Thrown e, m)
               /\ type_ e = InvalidAvailableBelowMin)
  /\ ((a <. MIN_DEFAULT_AVAILABLE_BALANCE)%dbl = false ->
      (p <. MIN_DEFAULT_PRESENT_BALANCE)%dbl = true ->
     exists e, setAccount this a p m = (Thrown e, m)
               /\ type_ e = InvalidPresentBelowMin)
  /\ ((a <. MIN_DEFAULT_AVAILABLE_BALANCE)%dbl = false ->
      (p <. MIN_DEFAULT_PRESENT_BALANCE)%dbl = false ->
      (a >. p)%dbl = true ->
     exists e, setAccount this a p m = (Thrown e, m)
               /\ type_ e = AvailableExceedsPresent)
  /\ ((a <. MIN_DEFAULT_AVAILABLE_BALANCE)%dbl = false ->
      (p <. MIN_DEFAULT_PRESENT_BALANCE)%dbl = false ->
      (a >. p)%dbl = false ->
      is_Some (objects m !! this) ->
     exists m', setAccount this a p m = (Returned tt, m')).
Proof.
  rewrite setAccount_eq. unfold rejection.
  repeat split.
  - intros ->. eexists; split; reflexivity.
  - intros -> ->. eexists; split; reflexivity.
  - intros -> -> ->. eexists; split; reflexivity.
  - intros -> -> -> [o ->]. eexists; reflexivity.
Qed.

Lemma setAccount_validation_order_witness :
  (exists e, setAccount slot0 d3 d1 one_account = (Thrown e, one_account)
             /\ type_ e = InvalidAvailableBelowMin)
  /\ (exists e, setAccount slot0 d10 d3 one_account = (Thrown e, one_account)
                /\ type_ e = InvalidPresentBelowMin)
  /\ (exists e, setAccount slot0 d20 d10 one_account = (Thrown e, one_account)
                /\ type_ e = AvailableExceedsPresent)
  /\ (exists m', setAccount slot0 d15 d30 one_account = (Returned tt, m')).
Proof.
  split; [|split; [|split]].
  - apply (setAccount_validation_order slot0 d3 d1 one_account).
    vm_compute. reflexivity.
  - apply (setAccount_validation_order slot0 d10 d3 one_account);
      vm_compute; reflexivity.
  - apply (setAccount_validation_order slot0 d20 d10 one_account);
      vm_compute; reflexivity.
  - apply (setAccount_validation_order slot0 d15 d30 one_account);
      try (vm_compute; reflexivity).
    exists {| available_ := d10; present_ := d20 |}. vm_compute. reflexivity.
Defined.

(** C3.  [setAccount] is atomic: whenever it throws, the machine after
    the call is the machine before it (so neither [available_] nor
    [present_] of the account changed), and the exception carries the
    kind of the failed rule together with its non-empty message. *)
Theorem setAccount_rejection_atomic (this : addr) (a p : double)
  (m m' : Machine) (e : BankAccountException) :
  setAccount this a p m = (Thrown e, m') ->
  m' = m
  /\ available this m' = available this m
  /\ present this m' = present this m
  /\ what e <> EmptyString
  /\ ((type_ e = InvalidAvailableBelowMin
       /\ what e = "Available balance below minimum $5.00")
      \/ (type_ e = InvalidPresentBelowMin
          /\ what e = "Present balance below minimum $5.00")
      \/ (type_ e = AvailableExceedsPresent
          /\ what e = "Available balance cannot exceed present balance")).
Proof.
  intros H. apply setAccount_thrown in H as [Hr ->].
  split; [reflexivity|]. split; [reflexivity|]. split; [reflexivity|].
  destruct (rejection_kind _ _ _ Hr) as [-> | [-> | ->]]; simpl;
    (split; [discriminate|]); auto.
Qed.

Lemma setAccount_rejection_atomic_witness :
  one_account = one_account
  /\ available slot0 one_account = available slot0 one_account
  /\ present slot0 one_account = present slot0 one_account
  /\ what below_available <> EmptyString
  /\ ((type_ below_available = InvalidAvailableBelowMin
       /\ what below_available = "Available balance below minimum $5.00")
      \/ (type_ below_available = InvalidPresentBelowMin
          /\ what below_available = "Present balance below minimum $5.00")
      \/ (type_ below_available = AvailableExceedsPresent
          /\ what below_available = "Available balance cannot exceed present balance")).
Proof.
  apply (setAccount_rejection_atomic slot0 d1 d20 one_account one_account
           below_available).
  vm_compute. reflexivity.
Defined.

(** C8.  Whatever its arguments and whether it accepts or rejects,
    [setAccount] leaves the static instance counter as it was, prints
    nothing, creates or destroys no object, and leaves every object
    other than its target untouched: only the two balance fields of the
    target can differ. *)
Theorem setAccount_frame (this : addr) (a p : double) (m : Machine) :
  let m' := snd (setAccount this a p m) in
  getObjectCount m' = getObjectCount m
  /\ cout m' = cout m
  /\ dom (objects m') = dom (objects m)
  /\ (forall other : addr, other <> this -> objects m' !! other = objects m !! other).
Proof.
  rewrite setAccount_eq.
  destruct (rejection a p) as [e|]; simpl.
  { repeat split; reflexivity. }
  destruct (objects m !! this) as [o|] eqn:E; simpl.
  - repeat split; try reflexivity.
    + rewrite dom_insert_L.
      assert (Hin : this ∈ dom (objects m)) by (apply elem_of_dom; eauto).
      apply set_eq. intros x. rewrite elem_of_union, elem_of_singleton.
      split; [intros [->|Hx]; assumption | auto].
    + intros other Hne. apply lookup_insert_ne. congruence.
  - repeat split; reflexivity.
Qed.

(** C9.  [setAccount] never throws an exception of kind [Unknown]: the
    kind of any exception it throws is one of
    [InvalidAvailableBelowMin], [InvalidPresentBelowMin],
    [AvailableExceedsPresent]. *)
Theorem setAccount_never_unknown (this : addr) (a p : double)
  (m m' : Machine) (e : BankAccountException) :
  setAccount this a p m = (Thrown e, m') ->
  type_ e <> Unknown
  /\ (type_ e = InvalidAvailableBelowMin
      \/ type_ e = InvalidPresentBelowMin
      \/ type_ e = AvailableExceedsPresent).
Proof.
  intros H. apply setAccount_thrown in H as [Hr _].
  destruct (rejection_kind _ _ _ Hr) as [-> | [-> | ->]]; simpl;
    (split; [discriminate|]); auto.
Qed.

Lemma setAccount_never_unknown_witness :
  type_ exceeds_present <> Unknown
  /\ (type_ exceeds_present = InvalidAvailableBelowMin
      \/ type_ exceeds_present = InvalidPresentBelowMin
      \/ type_ exceeds_present = AvailableExceedsPresent).
Proof.
  apply (setAccount_never_unknown slot0 d20 d10 one_account one_account
           exceeds_present).
  vm_compute. reflexivity.
Defined.

(** C10.  The outcome of [setAccount] depends on its two arguments only,
    not on the account it is called on: on two live accounts in any two
    machines the same arguments give the same outcome (both return, or
    both throw the same exception, kind and message included), and when
    the call returns both accounts hold the same two values. *)
Theorem setAccount_outcome_state_independent
  (this1 this2 : addr) (a p : double) (m1 m2 : Machine) :
  is_Some (objects m1 !! this1) ->
  is_Some (objects m2 !! this2) ->
  fst (setAccount this1 a p m1) = fst (setAccount this2 a p m2)
  /\ fst (setAccount this1 a p m1) <> Undefined
  /\ (fst (setAccount this1 a p m1) = Returned tt ->
      objects (snd (setAccount this1 a p m1)) !! this1
        = Some {| available_ := a; present_ := p |}
      /\ objects (snd (setAccount this2 a p m2)) !! this2
        = Some {| available_ := a; present_ := p |}).
Proof.
  intros [o1 H1] [o2 H2]. rewrite !setAccount_eq, H1, H2.
  destruct (rejection a p) as [e|]; simpl.
  - repeat split; discriminate.
  - repeat split; try discriminate; apply lookup_insert_eq.
Qed.

Lemma setAccount_outcome_state_independent_witness :
  fst (setAccount slot0 d20 d10 one_account)
    = fst (setAccount slot1 d20 d10 other_account)
  /\ fst (setAccount slot0 d20 d10 one_account) <> Undefined
  /\ (fst (setAccount slot0 d20 d10 one_account) = Returned tt ->
      objects (snd (setAccount slot0 d20 d10 one_account)) !! slot0
        = Some {| available_ := d20; present_ := d10 |}
      /\ objects (snd (setAccount slot1 d20 d10 other_account)) !! slot1
        = Some {| available_ := d20; present_ := d10 |}).
Proof.
  apply (setAccount_outcome_state_independent slot0 slot1 d20 d10
           one_account other_account).
  - exists {| available_ := d10; present_ := d20 |}. vm_compute. reflexivity.
  - exists defaults. vm_compute. reflexivity.
Defined.

(** ** Constructors *)

Section Constructors.

Lemma BankAccount_default_eq (this : addr) (m : Machine) :
  BankAccount_default this m = (Returned tt, constructed this defaults [] m).
Proof.
  unfold BankAccount_default, bind, init_members, incr_s_count, constructed,
    with_objects; simpl.
  rewrite app_nil_r. reflexivity.
Qed.

Lemma BankAccount_values_eq (this : addr) (a p : double) (m : Machine) :
  BankAccount_values this a p m =
    match rejection a p with
    | None =>
        (Returned tt,
         constructed this {| available_ := a; present_ := p |} [] m)
    | Some e => (Returned tt, constructed this defaults (notice e) m)
    end.
Proof.
  unfold BankAccount_values, bind, try_catch, init_members.
  rewrite setAccount_eq.
  destruct (rejection a p) as [e|].
  - unfold write_available_, write_present_, print, incr_s_count, constructed,
      with_objects, notice, defaults; simpl.
    rewrite lookup_insert_eq; simpl. rewrite lookup_insert_eq; simpl.
    rewrite !insert_insert_eq, <- !app_assoc. reflexivity.
  - unfold with_objects at 1; simpl. rewrite lookup_insert_eq.
    unfold incr_s_count, constructed, with_objects; simpl.
    rewrite insert_insert_eq, app_nil_r. reflexivity.
Qed.

Lemma BankAccount_copy_eq (this other : addr) (m : Machine) :
  BankAccount_copy this other m =
    match objects m !! other with
    | Some src => (Returned tt, constructed this src [] m)
    | None => (Undefined, m)
    end.
Proof.
  unfold BankAccount_copy, bind, read_available_, read_present_.
  destruct (objects m !! other) as [[a p]|] eqn:E; simpl; [|reflexivity].
  rewrite E; simpl.
  unfold init_members, incr_s_count, constructed, with_objects; simpl.
  rewrite app_nil_r. reflexivity.
Qed.

Lemma BankAccount_move_eq (this other : addr) (m : Machine) :
  BankAccount_move this other m = BankAccount_copy this other m.
Proof. reflexivity. Qed.

Lemma BankAccount_dtor_eq (this : addr) (m : Machine) :
  BankAccount_dtor this m =
    match objects m !! this with
    | Some _ =>
        (Returned tt,
         {| s_count := int_decr (s_count m);
            objects := delete this (objects m);
            cout := cout m |})
    | None =>
        (Undefined,
         {| s_count := int_decr (s_count m); objects := objects m; cout := cout m |})
    end.
Proof.
  unfold BankAccount_dtor, bind, decr_s_count, release; simpl.
  destruct (objects m !! this); reflexivity.
Qed.

End Constructors.

(** C4.  For every pair [(a, p)] that fails validation, that is, for
    which [setAccount] throws some exception [e] (on whatever account),
    the constructor [BankAccount(a, p)] returns normally: it catches the
    exception, prints the notice that carries the message of [e], and
    the new object has [available = 5.00] and [present = 5.00]. *)
Theorem BankAccount_values_fallback
  (this this0 : addr) (a p : double) (m m0 m0' : Machine)
  (e : BankAccountException) :
  setAccount this0 a p m0 = (Thrown e, m0') ->
  exists m',
    BankAccount_values this a p m = (Returned tt, m')
    /\ available this m' = (Returned MIN_DEFAULT_AVAILABLE_BALANCE, m')
    /\ present this m' = (Returned MIN_DEFAULT_PRESENT_BALANCE, m')
    /\ cout m' = (cout m ++ ["[Create] "; what e;
                             String.append " -> account set to defaults ($5.00, $5.00)"
                               newline])%list
    /\ getObjectCount m' = int_incr (getObjectCount m).
Proof.
  intros H. apply setAccount_thrown in H as [Hr _].
  rewrite BankAccount_values_eq, Hr.
  eexists. split; [reflexivity|].
  unfold available, present, read_available_, read_present_, constructed; simpl.
  rewrite lookup_insert_eq. simpl. repeat split; reflexivity.
Qed.

Lemma BankAccount_values_fallback_witness :
  exists m',
    BankAccount_values slot1 d3 d20 one_account = (Returned tt, m')
    /\ available slot1 m' = (Returned MIN_DEFAULT_AVAILABLE_BALANCE, m')
    /\ present slot1 m' = (Returned MIN_DEFAULT_PRESENT_BALANCE, m')
    /\ cout m' = (cout one_account
                   ++ ["[Create] "; what below_available;
                       String.append " -> account set to defaults ($5.00, $5.00)"
                         newline])%list
    /\ getObjectCount m' = int_incr (getObjectCount one_account).
Proof.
  apply (BankAccount_values_fallback slot1 slot0 d3 d20 one_account
           one_account one_account below_available).
  vm_compute. reflexivity.
Defined.

(** C7, as the code has it.  Copy construction and move construction
    each return normally with a new object whose [available_] and
    [present_] are those of the source and, when the counter is below
    [INT_MAX], increment it by one; they validate nothing: the source
    [src] is arbitrary, it need not satisfy the invariant, and no
    exception is thrown; the source object is the same after the call as
    before, for the move constructor too. *)
Theorem copy_move_construct (this other : addr) (src : BankAccount) (m : Machine) :
  objects m !! other = Some src ->
  INT_MIN <= getObjectCount m < INT_MAX ->
  (exists m',
     BankAccount_copy this other m = (Returned tt, m')
     /\ available this m' = (Returned (available_ src), m')
     /\ present this m' = (Returned (present_ src), m')
     /\ getObjectCount m' = getObjectCount m + 1
     /\ objects m' !! other = Some src
     /\ cout m' = cout m)
  /\ (exists m',
        BankAccount_move this other m = (Returned tt, m')
        /\ available this m' = (Returned (available_ src), m')
        /\ present this m' = (Returned (present_ src), m')
        /\ getObjectCount m' = getObjectCount m + 1
        /\ objects m' !! other = Some src
        /\ cout m' = cout m).
Proof.
  intros Hsrc Hcount.
  assert (Hcopy : BankAccount_copy this other m
                  = (Returned tt, constructed this src [] m)).
  { rewrite BankAccount_copy_eq. destruct (objects m !! other); congruence. }
  assert (Hmove : BankAccount_move this other m
                  = (Returned tt, constructed this src [] m)) by exact Hcopy.
  assert (Hother : <[this := src]> (objects m) !! other = Some src).
  { destruct (decide (this = other)) as [->|Hne].
    - apply lookup_insert_eq.
    - rewrite lookup_insert_ne by exact Hne. exact Hsrc. }
  split; [rewrite Hcopy | rewrite Hmove]; eexists; (split; [reflexivity|]);
    unfold available, present, read_available_, read_present_, constructed,
      getObjectCount in *;
    simpl; rewrite lookup_insert_eq, app_nil_r; simpl;
    repeat split; try reflexivity; try exact Hother;
    apply int_incr_below_max; exact Hcount.
Qed.

Lemma copy_move_construct_witness :
  (exists m',
     BankAccount_copy slot1 slot0 one_account = (Returned tt, m')
     /\ available slot1 m' = (Returned d10, m')
     /\ present slot1 m' = (Returned d20, m')
     /\ getObjectCount m' = getObjectCount one_account + 1
     /\ objects m' !! slot0 = Some {| available_ := d10; present_ := d20 |}
     /\ cout m' = cout one_account)
  /\ (exists m',
        BankAccount_move slot1 slot0 one_account = (Returned tt, m')
        /\ available slot1 m' = (Returned d10, m')
        /\ present slot1 m' = (Returned d20, m')
        /\ getObjectCount m' = getObjectCount one_account + 1
        /\ objects m' !! slot0 = Some {| available_ := d10; present_ := d20 |}
        /\ cout m' = cout one_account).
Proof.
  apply (copy_move_construct slot1 slot0
           {| available_ := d10; present_ := d20 |} one_account).
  - vm_compute. reflexivity.
  - unfold getObjectCount, one_account, INT_MIN, INT_MAX. simpl. lia.
Defined.

(** Whatever the counter holds, both constructors copy the two values,
    never throw, leave the source as it was and execute [++s_count]. *)
Lemma copy_move_construct_any_count (this other : addr) (src : BankAccount)
  (m : Machine) :
  objects m !! other = Some src ->
  BankAccount_copy this other m = (Returned tt, constructed this src [] m)
  /\ BankAccount_move this other m = (Returned tt, constructed this src [] m).
Proof.
  intros Hsrc.
  assert (Hcopy : BankAccount_copy this other m
                  = (Returned tt, constructed this src [] m)).
  { rewrite BankAccount_copy_eq, Hsrc. reflexivity. }
  split; exact Hcopy.
Qed.

(** ** The invariant of the data model *)

Section Invariant.

Lemma invariant_defaults : invariant defaults = true.
Proof. reflexivity. Qed.

(** Arguments that are numbers and that [setAccount] accepts satisfy the
    three conditions. *)
Lemma invariant_accepted (a p : double) :
  is_nan a = false -> is_nan p = false ->
  rejection a p = None ->
  invariant {| available_ := a; present_ := p |} = true.
Proof.
  intros Ha Hp. unfold rejection, invariant; simpl.
  destruct (a <. MIN_DEFAULT_AVAILABLE_BALANCE)%dbl eqn:E1; [discriminate|].
  destruct (p <. MIN_DEFAULT_PRESENT_BALANCE)%dbl eqn:E2; [discriminate|].
  destruct (a >. p)%dbl eqn:E3; [discriminate|]. intros _.
  rewrite (dlt_dge a MIN_DEFAULT_AVAILABLE_BALANCE Ha eq_refl E1),
    (dlt_dge p MIN_DEFAULT_PRESENT_BALANCE Hp eq_refl E2),
    (dgt_dle _ _ Ha Hp E3).
  reflexivity.
Qed.

(** On arguments that are numbers, every operation that gives an object
    its values gives it values that satisfy the invariant. *)
Lemma invariant_setAccount (this : addr) (a p : double) (m m' : Machine) :
  is_nan a = false -> is_nan p = false ->
  setAccount this a p m = (Returned tt, m') ->
  exists o, objects m' !! this = Some o /\ invariant o = true.
Proof.
  intros Ha Hp H. apply setAccount_returned in H as [Hr ->].
  eexists. split; [apply lookup_insert_eq|]. apply invariant_accepted; assumption.
Qed.

Lemma invariant_BankAccount_values (this : addr) (a p : double) (m : Machine) :
  is_nan a = false -> is_nan p = false ->
  exists m' o, BankAccount_values this a p m = (Returned tt, m')
               /\ objects m' !! this = Some o /\ invariant o = true.
Proof.
  intros Ha Hp. rewrite BankAccount_values_eq.
  destruct (rejection a p) as [e|] eqn:Hr; do 2 eexists;
    (split; [reflexivity|]); (split; [apply lookup_insert_eq|]).
  - apply invariant_defaults.
  - apply invariant_accepted; assumption.
Qed.

Lemma invariant_BankAccount_default (this : addr) (m : Machine) :
  exists m' o, BankAccount_default this m = (Returned tt, m')
               /\ objects m' !! this = Some o /\ invariant o = true.
Proof.
  rewrite BankAccount_default_eq. do 2 eexists.
  split; [reflexivity|]. split; [apply lookup_insert_eq|]. apply invariant_defaults.
Qed.

Lemma invariant_BankAccount_copy (this other : addr) (src : BankAccount) (m : Machine) :
  objects m !! other = Some src -> invariant src = true ->
  exists m' o, BankAccount_copy this other m = (Returned tt, m')
               /\ objects m' !! this = Some o /\ invariant o = true.
Proof.
  intros Hsrc Hinv. rewrite BankAccount_copy_eq, Hsrc. do 2 eexists.
  split; [reflexivity|]. split; [apply lookup_insert_eq|]. exact Hinv.
Qed.

End Invariant.

(** C5.  The invariant [available >= 5.00], [present >= 5.00],
    [available <= present] is meant to hold of every object that was
    constructed or updated with success.  It does not: every comparison
    with NaN is false, so none of the three checks of [setAccount]
    rejects a NaN.  [setAccount(NaN, 20)] on the account (10, 20)
    returns normally and leaves [available_ = NaN], for which
    [available >= 5.00] is false; [BankAccount(NaN, NaN)] constructs such
    an object too, without any notice. *)
Theorem setAccount_accepts_nan :
  (exists m',
     setAccount slot0 NaN d20 one_account = (Returned tt, m')
     /\ objects m' !! slot0 = Some {| available_ := NaN; present_ := d20 |}
     /\ invariant {| available_ := NaN; present_ := d20 |} = false
     /\ (NaN >=. MIN_DEFAULT_AVAILABLE_BALANCE)%dbl = false)
  /\ (exists m',
        BankAccount_values slot0 NaN NaN boot = (Returned tt, m')
        /\ objects m' !! slot0 = Some {| available_ := NaN; present_ := NaN |}
        /\ cout m' = []
        /\ invariant {| available_ := NaN; present_ := NaN |} = false).
Proof.
  split; eexists; repeat split; vm_compute; reflexivity.
Qed.

(** ** The live-instance counter *)

Section Counter.

Lemma in_int_wrap (z : Z) : in_int (int_wrap z).
Proof.
  unfold in_int, INT_MIN, INT_MAX, int_wrap.
  pose proof (Z.mod_pos_bound (z + 2147483648) 4294967296 eq_refl). lia.
Qed.

Lemma delta_cons (act : Action) (rest : list Action) :
  constructions (act :: rest) - destructions (act :: rest)
  = delta act + (constructions rest - destructions rest).
Proof.
  unfold constructions, destructions, delta; simpl.
  destruct act; simpl; lia.
Qed.

Lemma destructions_le_cons (act : Action) (rest : list Action) :
  constructions (act :: rest) = constructions rest + (if is_construction act then 1 else 0)
  /\ destructions (act :: rest) = destructions rest + (if is_destruction act then 1 else 0).
Proof.
  unfold constructions, destructions; simpl.
  destruct act; simpl; lia.
Qed.

(** One action that returns changes the counter and the number of live
    objects by the same [delta]. *)
Lemma perform_effect (act : Action) (m m' : Machine) :
  in_int (s_count m) ->
  perform act m = (Returned tt, m') ->
  in_int (s_count m')
  /\ s_count m' = int_wrap (s_count m + delta act)
  /\ Z.of_nat (size (objects m')) = Z.of_nat (size (objects m)) + delta act.
Proof.
  intros Hint.
  destruct act as [this|this a p|this other|this other|this|this a p];
    unfold perform, bind, require_fresh, try_catch.
  - destruct (objects m !! this) eqn:E; [discriminate|].
    rewrite BankAccount_default_eq. intros [= <-]. simpl.
    rewrite map_size_insert_None by exact E.
    split; [apply in_int_wrap|]. split; [reflexivity|]. unfold delta; simpl. lia.
  - destruct (objects m !! this) eqn:E; [discriminate|].
    rewrite BankAccount_values_eq.
    destruct (rejection a p); intros [= <-]; simpl;
      rewrite map_size_insert_None by exact E;
      (split; [apply in_int_wrap|]); (split; [reflexivity|]);
      unfold delta; simpl; lia.
  - destruct (objects m !! this) eqn:E; [discriminate|].
    rewrite BankAccount_copy_eq.
    destruct (objects m !! other); [|discriminate]. intros [= <-]. simpl.
    rewrite map_size_insert_None by exact E.
    split; [apply in_int_wrap|]. split; [reflexivity|]. unfold delta; simpl. lia.
  - destruct (objects m !! this) eqn:E; [discriminate|].
    rewrite BankAccount_move_eq, BankAccount_copy_eq.
    destruct (objects m !! other); [|discriminate]. intros [= <-]. simpl.
    rewrite map_size_insert_None by exact E.
    split; [apply in_int_wrap|]. split; [reflexivity|]. unfold delta; simpl. lia.
  - rewrite BankAccount_dtor_eq.
    destruct (objects m !! this) eqn:E; [|discriminate]. intros [= <-]. simpl.
    assert (Hsome : is_Some (objects m !! this)) by eauto.
    rewrite map_size_delete_Some by exact Hsome.
    pose proof (map_size_ne_0_lookup_2 (objects m) this Hsome) as Hpos.
    split; [apply in_int_wrap|]. split; [reflexivity|]. unfold delta; simpl.
    rewrite Nat2Z.inj_pred by lia. lia.
  - rewrite setAccount_eq.
    destruct (rejection a p) as [e|].
    + unfold print; simpl. intros [= <-]. simpl.
      split; [exact Hint|]. unfold delta; simpl.
      rewrite Z.add_0_r, int_wrap_id by exact Hint. split; [reflexivity|lia].
    + destruct (objects m !! this) eqn:E; [|discriminate]. intros [= <-]. simpl.
      rewrite map_size_insert_Some by eauto.
      split; [exact Hint|]. unfold delta; simpl.
      rewrite Z.add_0_r, int_wrap_id by exact Hint. split; [reflexivity|lia].
Qed.

Lemma run_cons_returned (act : Action) (rest : list Action) (m m' : Machine) :
  run (act :: rest) m = (Returned tt, m') ->
  exists m1, perform act m = (Returned tt, m1) /\ run rest m1 = (Returned tt, m').
Proof.
  simpl. unfold bind. destruct (perform act m) as [[[]|e|] m1]; try discriminate.
  intros H. exists m1. auto.
Qed.

Lemma run_effect (acts : list Action) : forall (m m' : Machine),
  in_int (s_count m) ->
  run acts m = (Returned tt, m') ->
  in_int (s_count m')
  /\ s_count m' = int_wrap (s_count m + (constructions acts - destructions acts))
  /\ Z.of_nat (size (objects m'))
     = Z.of_nat (size (objects m)) + (constructions acts - destructions acts).
Proof.
  induction acts as [|act rest IH]; intros m m' Hint H.
  - injection H as <-. change (constructions [] - destructions []) with 0.
    rewrite !Z.add_0_r, int_wrap_id by exact Hint. auto.
  - apply run_cons_returned in H as (m1 & H1 & H2).
    destruct (perform_effect _ _ _ Hint H1) as (Hint1 & Hc1 & Hs1).
    destruct (IH _ _ Hint1 H2) as (Hint' & Hc' & Hs').
    rewrite delta_cons. split; [exact Hint'|]. split.
    + rewrite Hc', Hc1, int_wrap_add_l. f_equal. lia.
    + lia.
Qed.

Lemma run_app_returned (pre post : list Action) : forall (m m' : Machine),
  run (pre ++ post)%list m = (Returned tt, m') ->
  exists m1, run pre m = (Returned tt, m1) /\ run post m1 = (Returned tt, m').
Proof.
  induction pre as [|act pre IH]; intros m m' H.
  - exists m. auto.
  - change ((act :: pre) ++ post)%list with (act :: (pre ++ post))%list in H.
    apply run_cons_returned in H as (m1 & H1 & H2).
    destruct (IH _ _ H2) as (m2 & H3 & H4).
    exists m2. split; [|exact H4].
    simpl. unfold bind. rewrite H1. exact H3.
Qed.

(** Constructing [n] default accounts in a row, at addresses that are
    free, always returns and increments the counter [n] times. *)
Lemma run_construct_from (n : nat) : forall (k : nat) (m : Machine),
  in_int (s_count m) ->
  (forall i : nat, (k <= i)%nat -> objects m !! i = None) ->
  exists m',
    run (map NewDefault (seq k n)) m = (Returned tt, m')
    /\ s_count m' = int_wrap (s_count m + Z.of_nat n)
    /\ (forall i : nat, (k + n <= i)%nat -> objects m' !! i = None)
    /\ (forall i : nat, (k <= i < k + n)%nat -> objects m' !! i = Some defaults)
    /\ (forall i : nat, (i < k)%nat -> objects m' !! i = objects m !! i).
Proof.
  induction n as [|n IH]; intros k m Hint Hfree.
  - exists m. split; [reflexivity|]. split; [|split; [|split]].
    + rewrite Z.add_0_r, int_wrap_id by exact Hint. reflexivity.
    + intros i Hi. apply Hfree. lia.
    + intros i Hi. lia.
    + reflexivity.
  - destruct (IH (S k) (constructed k defaults [] m))
      as (m' & Hrun & Hc & Hfree' & Hnew & Hold).
    + apply in_int_wrap.
    + intros i Hi. simpl. rewrite lookup_insert_ne by lia. apply Hfree. lia.
    + exists m'. split; [|split; [|split; [|split]]].
      * change (map NewDefault (seq k (S n)))
          with (NewDefault k :: map NewDefault (seq (S k) n)).
        change (run (NewDefault k :: map NewDefault (seq (S k) n)))
          with (bind (perform (NewDefault k))
                  (fun _ => run (map NewDefault (seq (S k) n)))).
        unfold bind at 1. unfold perform, bind, require_fresh.
        rewrite (Hfree k) by lia. rewrite BankAccount_default_eq. exact Hrun.
      * rewrite Hc. simpl s_count. unfold int_incr.
        rewrite int_wrap_add_l. f_equal. lia.
      * intros i Hi. apply Hfree'. lia.
      * intros i Hi. destruct (decide (i = k)) as [->|Hne].
        -- rewrite Hold by lia. apply lookup_insert_eq.
        -- apply Hnew. lia.
      * intros i Hi. rewrite Hold by lia. apply lookup_insert_ne. lia.
Qed.

Lemma constructions_construct_from (n : nat) : forall k : nat,
  constructions (map NewDefault (seq k n)) = Z.of_nat n
  /\ destructions (map NewDefault (seq k n)) = 0.
Proof.
  induction n as [|n IH]; intros k.
  - split; reflexivity.
  - destruct (IH (S k)) as [Hc Hd].
    change (map NewDefault (seq k (S n)))
      with (NewDefault k :: map NewDefault (seq (S k) n)).
    destruct (destructions_le_cons (NewDefault k) (map NewDefault (seq (S k) n)))
      as [-> ->].
    rewrite Hc, Hd. simpl. lia.
Qed.

(** From the start of the program, while the number N - M of live
    instances fits in an [int], the counter is that number. *)
Lemma run_boot_count (acts : list Action) (m : Machine) :
  run acts boot = (Returned tt, m) ->
  destructions acts <= constructions acts
  /\ Z.of_nat (size (objects m)) = constructions acts - destructions acts
  /\ (constructions acts - destructions acts <= INT_MAX ->
      getObjectCount m = constructions acts - destructions acts).
Proof.
  intros H.
  assert (Hint : in_int (s_count boot)) by (unfold in_int, INT_MIN, INT_MAX; simpl; lia).
  destruct (run_effect acts boot m Hint H) as (_ & Hc & Hs).
  change (size (objects boot)) with (size (∅ : gmap nat BankAccount)) in Hs.
  rewrite map_size_empty in Hs. change (s_count boot) with 0 in Hc.
  split; [lia|]. split; [lia|]. intros Hmax.
  unfold getObjectCount. rewrite Hc. apply int_wrap_id.
  unfold in_int, INT_MIN. lia.
Qed.

Lemma live_counter_final (acts : list Action) (m : Machine) :
  run acts boot = (Returned tt, m) ->
  constructions acts - destructions acts <= INT_MAX ->
  getObjectCount m = constructions acts - destructions acts
  /\ 0 <= getObjectCount m.
Proof.
  intros H Hmax. destruct (run_boot_count acts m H) as (Hle & _ & Hc).
  rewrite (Hc Hmax). split; [reflexivity|lia].
Qed.

End Counter.

(** C6, as the code has it.  Take any program that runs from the start
    of the process, and any point of it: if N instances were constructed
    up to there (by whichever constructor) and M destroyed, then
    M <= N, exactly N - M objects are alive, and, provided N - M does not
    exceed [INT_MAX], [getObjectCount()] returns N - M there, which is
    not negative.  (With [post = []] the point is the end of the
    program.) *)
Theorem live_counter_in_range (pre post : list Action) (m : Machine) :
  run (pre ++ post)%list boot = (Returned tt, m) ->
  constructions pre - destructions pre <= INT_MAX ->
  exists m1,
    run pre boot = (Returned tt, m1)
    /\ destructions pre <= constructions pre
    /\ Z.of_nat (size (objects m1)) = constructions pre - destructions pre
    /\ getObjectCount m1 = constructions pre - destructions pre
    /\ 0 <= getObjectCount m1.
Proof.
  intros H Hmax.
  destruct (run_app_returned pre post boot m H) as (m1 & H1 & _).
  exists m1. destruct (run_boot_count pre m1 H1) as (Hle & Hs & Hc).
  rewrite (Hc Hmax). repeat split; try assumption. lia.
Qed.

Lemma live_counter_in_range_witness :
  exists m1,
    run three_minus_one boot = (Returned tt, m1)
    /\ destructions three_minus_one <= constructions three_minus_one
    /\ Z.of_nat (size (objects m1))
       = constructions three_minus_one - destructions three_minus_one
    /\ getObjectCount m1
       = constructions three_minus_one - destructions three_minus_one
    /\ 0 <= getObjectCount m1.
Proof.
  apply (live_counter_in_range three_minus_one [] (snd (run three_minus_one boot))).
  - vm_compute. reflexivity.
  - vm_compute. discriminate.
Defined.

(** C6 as stated fails: after 2^31 constructions and no destruction
    the claim asks [getObjectCount()] to return 2^31, which no [int]
    holds; the counter has wrapped to [INT_MIN], a negative value. *)
Lemma live_counter_overflow :
  exists m,
    run (construct_many many) boot = (Returned tt, m)
    /\ constructions (construct_many many) = 2147483648
    /\ destructions (construct_many many) = 0
    /\ getObjectCount m = -2147483648
    /\ getObjectCount m
       <> constructions (construct_many many) - destructions (construct_many many)
    /\ getObjectCount m < 0.
Proof.
  assert (Hmany : Z.of_nat many = 2147483648).
  { unfold many. apply Z2Nat.id. discriminate. }
  destruct (run_construct_from many 0%nat boot) as (m & Hrun & Hc & _).
  - unfold in_int, INT_MIN, INT_MAX, boot, s_count. split; discriminate.
  - intros i _. apply lookup_empty.
  - destruct (constructions_construct_from many 0%nat) as [HN HM].
    rewrite Hmany in Hc, HN.
    change (int_wrap (s_count boot + 2147483648)) with (-2147483648) in Hc.
    exists m. unfold construct_many, getObjectCount.
    rewrite HN, HM, Hc.
    split; [exact Hrun|]. repeat split; discriminate.
Qed.

(** C7 as stated fails when 2^31 - 1 instances are alive: the counter
    stands at [INT_MAX], and copying the account at [slot0] into fresh
    storage leaves it at [INT_MIN] instead of one more. *)
Lemma copy_at_INT_MAX_overflows :
  exists m m',
    run (construct_many almost) boot = (Returned tt, m)
    /\ objects m !! slot0 = Some defaults
    /\ objects m !! almost = None
    /\ getObjectCount m = INT_MAX
    /\ BankAccount_copy almost slot0 m = (Returned tt, m')
    /\ getObjectCount m' = INT_MIN
    /\ getObjectCount m' <> getObjectCount m + 1.
Proof.
  assert (Halmost : Z.of_nat almost = 2147483647).
  { unfold almost. apply Z2Nat.id. discriminate. }
  destruct (run_construct_from almost 0%nat boot)
    as (m & Hrun & Hc & Hfree & Hnew & _).
  - unfold in_int, INT_MIN, INT_MAX, boot, s_count. split; discriminate.
  - intros i _. apply lookup_empty.
  - rewrite Halmost in Hc.
    change (int_wrap (s_count boot + 2147483647)) with INT_MAX in Hc.
    assert (H0 : objects m !! slot0 = Some defaults).
    { apply Hnew. unfold slot0. lia. }
    exists m, (constructed almost defaults [] m).
    split; [exact Hrun|]. split; [exact H0|].
    split; [apply Hfree; apply Nat.le_refl|].
    split; [exact Hc|].
    split; [rewrite BankAccount_copy_eq, H0; reflexivity|].
    change (getObjectCount (constructed almost defaults [] m))
      with (int_incr (s_count m)).
    unfold getObjectCount. rewrite Hc.
    split; [reflexivity|]. intros H. vm_compute in H. discriminate.
Qed.

(** ** The scenarios of the specification, run on the model *)

Example samples_are_binary64 :
  forallb is_binary64 [d1; d3; d5; d10; d15; d20; d30; NaN; infinity] = true.
Proof. reflexivity. Qed.

Example scenario2 :
  BankAccount_values slot0 d3 d20 boot
  = (Returned tt,
     {| s_count := 1;
        objects := {[ slot0 := defaults ]};
        cout := ["[Create] "; "Available balance below minimum $5.00";
                 String.append " -> account set to defaults ($5.00, $5.00)" newline] |}).
Proof. vm_compute. reflexivity. Qed.

Example scenario3 :
  BankAccount_values slot0 d20 d10 boot
  = (Returned tt,
     {| s_count := 1;
        objects := {[ slot0 := defaults ]};
        cout := ["[Create] "; "Available balance cannot exceed present balance";
                 String.append " -> account set to defaults ($5.00, $5.00)" newline] |}).
Proof. vm_compute. reflexivity. Qed.

Example scenario4 :
  setAccount slot0 d1 d20 one_account = (Thrown below_available, one_account).
Proof. vm_compute. reflexivity. Qed.

Example scenario5 :
  setAccount slot0 d15 d30 one_account
  = (Returned tt,
     {| s_count := 1;
        objects := {[ slot0 := {| available_ := d15; present_ := d30 |} ]};
        cout := [] |}).
Proof. vm_compute. reflexivity. Qed.

Example scenario6 : getObjectCount (snd (run three_minus_one boot)) = 2.
Proof. vm_compute. reflexivity. Qed.

Example infinity_is_accepted :
  rejection infinity infinity = None
  /\ invariant {| available_ := infinity; present_ := infinity |} = true.
Proof. split; reflexivity. Qed.

(** ** Further properties of the class *)

Section MoreIntArith.

Lemma int_decr_incr (x : Z) : in_int x -> int_decr (int_incr x) = x.
Proof.
  intros H. unfold int_decr, int_incr.
  replace (int_wrap (x + 1) - 1) with (int_wrap (x + 1) + -1) by lia.
  rewrite int_wrap_add_l.
  replace (x + 1 + -1) with x by lia. apply int_wrap_id. exact H.
Qed.

End MoreIntArith.

(** X1.  [BankAccount(a, p)] with [a >= 5.00], [p >= 5.00] and [a <= p]
    returns normally with an object holding exactly [a] and [p]; it
    prints nothing and touches no other object. *)
Theorem BankAccount_values_accepts_valid (this : addr) (a p : double) (m : Machine) :
  (a >=. MIN_DEFAULT_AVAILABLE_BALANCE)%dbl = true ->
  (p >=. MIN_DEFAULT_PRESENT_BALANCE)%dbl = true ->
  (a <=. p)%dbl = true ->
  exists m',
    BankAccount_values this a p m = (Returned tt, m')
    /\ available this m' = (Returned a, m')
    /\ present this m' = (Returned p, m')
    /\ cout m' = cout m
    /\ (forall other : addr, other <> this -> objects m' !! other = objects m !! other).
Proof.
  intros Ha Hp Hap. rewrite BankAccount_values_eq. unfold rejection.
  rewrite (dge_dlt _ _ Ha), (dge_dlt _ _ Hp), (dle_dgt _ _ Hap).
  eexists. split; [reflexivity|].
  unfold available, present, read_available_, read_present_, constructed; simpl.
  rewrite lookup_insert_eq, app_nil_r; simpl.
  repeat split. intros other Hne. apply lookup_insert_ne. congruence.
Qed.

Lemma BankAccount_values_accepts_valid_witness :
  exists m',
    BankAccount_values slot1 d15 d30 one_account = (Returned tt, m')
    /\ available slot1 m' = (Returned d15, m')
    /\ present slot1 m' = (Returned d30, m')
    /\ cout m' = cout one_account
    /\ (forall other : addr,
          other <> slot1 -> objects m' !! other = objects one_account !! other).
Proof.
  apply (BankAccount_values_accepts_valid slot1 d15 d30 one_account);
    vm_compute; reflexivity.
Defined.

(** X2.  [BankAccount(a, p)] lets no exception escape, whatever the two
    doubles are (NaN and infinities included): it always returns, having
    executed [++s_count] once, and the new object holds either the two
    arguments, with nothing printed, or the defaults, with the notice of
    the exception that [setAccount] threw; every other object is as
    before. *)
Theorem BankAccount_values_never_throws (this : addr) (a p : double) (m : Machine) :
  exists m',
    BankAccount_values this a p m = (Returned tt, m')
    /\ getObjectCount m' = int_incr (getObjectCount m)
    /\ ((objects m' !! this = Some {| available_ := a; present_ := p |}
         /\ cout m' = cout m)
        \/ (exists e,
              setAccount this a p m' = (Thrown e, m')
              /\ objects m' !! this = Some defaults
              /\ cout m' = (cout m ++ notice e)%list))
    /\ (forall other : addr, other <> this -> objects m' !! other = objects m !! other).
Proof.
  rewrite BankAccount_values_eq.
  destruct (rejection a p) as [e|] eqn:Hr; eexists; (split; [reflexivity|]);
    (split; [reflexivity|]); split.
  - right. exists e. rewrite setAccount_eq, Hr.
    split; [reflexivity|]. split; [apply lookup_insert_eq|reflexivity].
  - intros other Hne. apply lookup_insert_ne. congruence.
  - left. split; [apply lookup_insert_eq|]. simpl. apply app_nil_r.
  - intros other Hne. apply lookup_insert_ne. congruence.
Qed.

(** X3.  When [setAccount(a, p)] returns, the account satisfies the
    three invariants exactly when neither argument is NaN: NaN is the
    only way past the validation with a broken invariant. *)
Theorem setAccount_invariant_iff_no_nan (this : addr) (a p : double) (m m' : Machine) :
  setAccount this a p m = (Returned tt, m') ->
  exists o,
    objects m' !! this = Some o
    /\ (invariant o = true <-> is_nan a = false /\ is_nan p = false).
Proof.
  intros H. apply setAccount_returned in H as [Hr ->].
  eexists. split; [apply lookup_insert_eq|]. split.
  - unfold invariant; simpl. intros Hinv.
    apply andb_prop in Hinv as [Hinv _]. apply andb_prop in Hinv as [H1 H2].
    destruct a, p; try discriminate; auto.
  - intros [Ha Hp]. apply invariant_accepted; assumption.
Qed.

Lemma setAccount_invariant_iff_no_nan_witness :
  exists o,
    objects (snd (setAccount slot0 d15 d30 one_account)) !! slot0 = Some o
    /\ (invariant o = true <-> is_nan d15 = false /\ is_nan d30 = false).
Proof.
  apply (setAccount_invariant_iff_no_nan slot0 d15 d30 one_account
           (snd (setAccount slot0 d15 d30 one_account))).
  vm_compute. reflexivity.
Defined.

(** X4.  The kind of the exception tells which rule failed, and only
    that: [InvalidAvailableBelowMin] is thrown exactly when
    [a < 5.00]; [InvalidPresentBelowMin] exactly when [a < 5.00] is false
    and [p < 5.00]; [AvailableExceedsPresent] exactly when both are
    false and [a > p]. *)
Theorem setAccount_kind_identifies_rule (this : addr) (a p : double)
  (m m' : Machine) (e : BankAccountException) :
  setAccount this a p m = (Thrown e, m') ->
  (type_ e = InvalidAvailableBelowMin
     <-> (a <. MIN_DEFAULT_AVAILABLE_BALANCE)%dbl = true)
  /\ (type_ e = InvalidPresentBelowMin
        <-> (a <. MIN_DEFAULT_AVAILABLE_BALANCE)%dbl = false
            /\ (p <. MIN_DEFAULT_PRESENT_BALANCE)%dbl = true)
  /\ (type_ e = AvailableExceedsPresent
        <-> (a <. MIN_DEFAULT_AVAILABLE_BALANCE)%dbl = false
            /\ (p <. MIN_DEFAULT_PRESENT_BALANCE)%dbl = false
            /\ (a >. p)%dbl = true).
Proof.
  intros H. apply setAccount_thrown in H as [Hr _]. revert Hr. unfold rejection.
  destruct (a <. MIN_DEFAULT_AVAILABLE_BALANCE)%dbl;
    [intros [= <-]; simpl; intuition congruence|].
  destruct (p <. MIN_DEFAULT_PRESENT_BALANCE)%dbl;
    [intros [= <-]; simpl; intuition congruence|].
  destruct (a >. p)%dbl; [intros [= <-]; simpl; intuition congruence|discriminate].
Qed.

Lemma setAccount_kind_identifies_rule_witness :
  (type_ below_present = InvalidAvailableBelowMin
     <-> (d10 <. MIN_DEFAULT_AVAILABLE_BALANCE)%dbl = true)
  /\ (type_ below_present = InvalidPresentBelowMin
        <-> (d10 <. MIN_DEFAULT_AVAILABLE_BALANCE)%dbl = false
            /\ (d3 <. MIN_DEFAULT_PRESENT_BALANCE)%dbl = true)
  /\ (type_ below_present = AvailableExceedsPresent
        <-> (d10 <. MIN_DEFAULT_AVAILABLE_BALANCE)%dbl = false
            /\ (d3 <. MIN_DEFAULT_PRESENT_BALANCE)%dbl = false
            /\ (d10 >. d3)%dbl = true).
Proof.
  apply (setAccount_kind_identifies_rule slot0 d10 d3 one_account one_account
           below_present).
  vm_compute. reflexivity.
Defined.

(** X5.  Only the last accepted update counts: after an accepted
    [setAccount(a1, p1)], a second call [setAccount(a2, p2)] behaves as
    it would have on the original account.  If it is accepted the
    account is as if only the second call had been made; if it is
    rejected, with the same exception as on the original account, the
    account keeps the values of the first call. *)
Theorem setAccount_last_write_wins (this : addr) (a1 p1 a2 p2 : double)
  (m m1 : Machine) :
  setAccount this a1 p1 m = (Returned tt, m1) ->
  (forall m2, setAccount this a2 p2 m = (Returned tt, m2) ->
              setAccount this a2 p2 m1 = (Returned tt, m2))
  /\ (forall e m2, setAccount this a2 p2 m = (Thrown e, m2) ->
                   setAccount this a2 p2 m1 = (Thrown e, m1)
                   /\ available this m1 = (Returned a1, m1)
                   /\ present this m1 = (Returned p1, m1)).
Proof.
  intros H1. apply setAccount_returned in H1 as [Hr1 ->]. split.
  - intros m2 H2. apply setAccount_returned in H2 as [Hr2 ->].
    rewrite setAccount_eq, Hr2. unfold with_objects at 1; simpl.
    rewrite lookup_insert_eq. unfold with_objects; simpl.
    rewrite insert_insert_eq. reflexivity.
  - intros e m2 H2. apply setAccount_thrown in H2 as [Hr2 ->].
    rewrite setAccount_eq, Hr2. split; [reflexivity|].
    unfold available, present, read_available_, read_present_, with_objects; simpl.
    rewrite lookup_insert_eq. split; reflexivity.
Qed.

Lemma setAccount_last_write_wins_witness :
  (forall m2, setAccount slot0 d10 d20 one_account = (Returned tt, m2) ->
              setAccount slot0 d10 d20 (snd (setAccount slot0 d15 d30 one_account))
              = (Returned tt, m2))
  /\ (forall e m2, setAccount slot0 d10 d20 one_account = (Thrown e, m2) ->
                   setAccount slot0 d10 d20 (snd (setAccount slot0 d15 d30 one_account))
                   = (Thrown e, snd (setAccount slot0 d15 d30 one_account))
                   /\ available slot0 (snd (setAccount slot0 d15 d30 one_account))
                      = (Returned d15, snd (setAccount slot0 d15 d30 one_account))
                   /\ present slot0 (snd (setAccount slot0 d15 d30 one_account))
                      = (Returned d30, snd (setAccount slot0 d15 d30 one_account))).
Proof.
  apply (setAccount_last_write_wins slot0 d15 d30 d10 d20 one_account
           (snd (setAccount slot0 d15 d30 one_account))).
  vm_compute. reflexivity.
Defined.

(** X6.  Constructing an object in free storage and destroying it again
    undoes itself: after the default or the copy constructor followed by
    the destructor the machine is exactly the one before; after
    [BankAccount(a, p)] followed by the destructor the counter and the
    objects are those before (the console may hold the notice).  The
    counter comes back even from [INT_MAX]. *)
Theorem construct_destroy_round_trip (this : addr) (m : Machine) :
  objects m !! this = None ->
  in_int (getObjectCount m) ->
  (BankAccount_default this ;; BankAccount_dtor this) m = (Returned tt, m)
  /\ (forall (other : addr) (src : BankAccount),
        objects m !! other = Some src ->
        (BankAccount_copy this other ;; BankAccount_dtor this) m = (Returned tt, m)
        /\ (BankAccount_move this other ;; BankAccount_dtor this) m = (Returned tt, m))
  /\ (forall a p : double,
        exists m',
          (BankAccount_values this a p ;; BankAccount_dtor this) m = (Returned tt, m')
          /\ getObjectCount m' = getObjectCount m
          /\ objects m' = objects m).
Proof.
  intros Hfree Hint. unfold getObjectCount in *.
  assert (Hback : forall (o : BankAccount) (text : list string),
             BankAccount_dtor this (constructed this o text m)
             = (Returned tt,
                {| s_count := s_count m; objects := objects m;
                   cout := (cout m ++ text)%list |})).
  { intros o text. rewrite BankAccount_dtor_eq. unfold constructed; simpl.
    rewrite lookup_insert_eq, delete_insert_id by exact Hfree.
    rewrite int_decr_incr by exact Hint. reflexivity. }
  assert (Hsame : {| s_count := s_count m; objects := objects m;
                     cout := (cout m ++ [])%list |} = m).
  { rewrite app_nil_r. destruct m; reflexivity. }
  split; [|split].
  - unfold bind. rewrite BankAccount_default_eq, Hback. f_equal. exact Hsame.
  - intros other src Hsrc.
    assert (Hcopy : BankAccount_copy this other m
                    = (Returned tt, constructed this src [] m)).
    { rewrite BankAccount_copy_eq, Hsrc. reflexivity. }
    assert (Hmove : BankAccount_move this other m
                    = (Returned tt, constructed this src [] m)) by exact Hcopy.
    split; unfold bind; [rewrite Hcopy | rewrite Hmove];
      rewrite Hback; f_equal; exact Hsame.
  - intros a p. unfold bind. rewrite BankAccount_values_eq.
    destruct (rejection a p); rewrite Hback; eexists;
      (split; [reflexivity|]); split; reflexivity.
Qed.

Lemma construct_destroy_round_trip_witness :
  (BankAccount_default slot1 ;; BankAccount_dtor slot1) one_account
  = (Returned tt, one_account)
  /\ (forall (other : addr) (src : BankAccount),
        objects one_account !! other = Some src ->
        (BankAccount_copy slot1 other ;; BankAccount_dtor slot1) one_account
        = (Returned tt, one_account)
        /\ (BankAccount_move slot1 other ;; BankAccount_dtor slot1) one_account
           = (Returned tt, one_account))
  /\ (forall a p : double,
        exists m',
          (BankAccount_values slot1 a p ;; BankAccount_dtor slot1) one_account
          = (Returned tt, m')
          /\ getObjectCount m' = getObjectCount one_account
          /\ objects m' = objects one_account).
Proof.
  apply (construct_destroy_round_trip slot1 one_account).
  - vm_compute. reflexivity.
  - unfold in_int, INT_MIN, INT_MAX, getObjectCount, one_account. simpl. lia.
Defined.

(** X7.  A copy is an independent instance: after copy (or move)
    construction from a live source into other storage, an update of
    the copy, accepted or not, leaves the source as it was; an update
    of the source leaves the copy as it was; and the copy outlives the
    destruction of the source with its values. *)
Theorem copy_is_independent (this other : addr) (src : BankAccount) (m : Machine) :
  objects m !! other = Some src ->
  this <> other ->
  exists m1,
    BankAccount_copy this other m = (Returned tt, m1)
    /\ BankAccount_move this other m = (Returned tt, m1)
    /\ (forall a p : double,
          objects (snd (setAccount this a p m1)) !! other = Some src)
    /\ (forall a p : double,
          objects (snd (setAccount other a p m1)) !! this = Some src)
    /\ (exists m2,
          BankAccount_dtor other m1 = (Returned tt, m2)
          /\ objects m2 !! this = Some src
          /\ objects m2 !! other = None).
Proof.
  intros Hsrc Hne.
  assert (Hcopy : BankAccount_copy this other m
                  = (Returned tt, constructed this src [] m)).
  { rewrite BankAccount_copy_eq, Hsrc. reflexivity. }
  exists (constructed this src [] m).
  assert (Hthis : objects (constructed this src [] m) !! this = Some src)
    by apply lookup_insert_eq.
  assert (Hother : objects (constructed this src [] m) !! other = Some src).
  { simpl. rewrite lookup_insert_ne by exact Hne. exact Hsrc. }
  split; [exact Hcopy|]. split; [exact Hcopy|]. split; [|split].
  - intros a p.
    destruct (setAccount_frame this a p (constructed this src [] m))
      as (_ & _ & _ & Hframe).
    rewrite Hframe by congruence. exact Hother.
  - intros a p.
    destruct (setAccount_frame other a p (constructed this src [] m))
      as (_ & _ & _ & Hframe).
    rewrite Hframe by congruence. exact Hthis.
  - rewrite BankAccount_dtor_eq, Hother. eexists. split; [reflexivity|].
    simpl. rewrite lookup_delete_ne by congruence.
    rewrite lookup_insert_eq, lookup_delete_eq. auto.
Qed.

Lemma copy_is_independent_witness :
  exists m1,
    BankAccount_copy slot1 slot0 one_account = (Returned tt, m1)
    /\ BankAccount_move slot1 slot0 one_account = (Returned tt, m1)
    /\ (forall a p : double,
          objects (snd (setAccount slot1 a p m1)) !! slot0
          = Some {| available_ := d10; present_ := d20 |})
    /\ (forall a p : double,
          objects (snd (setAccount slot0 a p m1)) !! slot1
          = Some {| available_ := d10; present_ := d20 |})
    /\ (exists m2,
          BankAccount_dtor slot0 m1 = (Returned tt, m2)
          /\ objects m2 !! slot1 = Some {| available_ := d10; present_ := d20 |}
          /\ objects m2 !! slot0 = None).
Proof.
  apply (copy_is_independent slot1 slot0
           {| available_ := d10; present_ := d20 |} one_account).
  - vm_compute. reflexivity.
  - unfold slot0, slot1. lia.
Defined.

Section ProgramInvariant.

Lemma all_valid_insert (this : addr) (o : BankAccount) (text : list string)
  (m : Machine) :
  all_valid m -> invariant o = true -> all_valid (constructed this o text m).
Proof.
  intros Hm Ho i o' Hi. simpl in Hi.
  destruct (decide (this = i)) as [->|Hne].
  - rewrite lookup_insert_eq in Hi. congruence.
  - rewrite lookup_insert_ne in Hi by exact Hne. eapply Hm, Hi.
Qed.

Lemma nan_free_args (a p : double) :
  negb (is_nan a) && negb (is_nan p) = true -> is_nan a = false /\ is_nan p = false.
Proof. destruct (is_nan a), (is_nan p); simpl; intros H; try discriminate; auto. Qed.

Lemma perform_all_valid (act : Action) (m m' : Machine) :
  all_valid m -> nan_free act = true ->
  perform act m = (Returned tt, m') -> all_valid m'.
Proof.
  intros Hm Hnan.
  destruct act as [this|this a p|this other|this other|this|this a p];
    unfold perform, bind, require_fresh, try_catch.
  - destruct (objects m !! this); [discriminate|].
    rewrite BankAccount_default_eq. intros [= <-].
    apply all_valid_insert; [exact Hm|apply invariant_defaults].
  - destruct (objects m !! this); [discriminate|].
    apply nan_free_args in Hnan as [Ha Hp].
    rewrite BankAccount_values_eq.
    destruct (rejection a p) eqn:Hr; intros [= <-];
      (apply all_valid_insert; [exact Hm|]).
    + apply invariant_defaults.
    + apply invariant_accepted; assumption.
  - destruct (objects m !! this); [discriminate|].
    rewrite BankAccount_copy_eq.
    destruct (objects m !! other) as [src|] eqn:Hsrc; [|discriminate].
    intros [= <-]. apply all_valid_insert; [exact Hm|]. eapply Hm, Hsrc.
  - destruct (objects m !! this); [discriminate|].
    rewrite BankAccount_move_eq, BankAccount_copy_eq.
    destruct (objects m !! other) as [src|] eqn:Hsrc; [|discriminate].
    intros [= <-]. apply all_valid_insert; [exact Hm|]. eapply Hm, Hsrc.
  - rewrite BankAccount_dtor_eq.
    destruct (objects m !! this); [|discriminate]. intros [= <-].
    intros i o Hi. simpl in Hi. apply lookup_delete_Some in Hi as [_ Hi].
    eapply Hm, Hi.
  - apply nan_free_args in Hnan as [Ha Hp]. rewrite setAccount_eq.
    destruct (rejection a p) eqn:Hr.
    + unfold print; simpl. intros [= <-]. exact Hm.
    + destruct (objects m !! this); [|discriminate]. intros [= <-].
      intros i o Hi. simpl in Hi.
      destruct (decide (this = i)) as [->|Hne].
      * rewrite lookup_insert_eq in Hi. injection Hi as <-.
        apply invariant_accepted; assumption.
      * rewrite lookup_insert_ne in Hi by exact Hne. eapply Hm, Hi.
Qed.

End ProgramInvariant.

(** X8.  The invariant of the data model is an invariant of every
    program that passes no NaN: if all live objects satisfy
    [available >= 5.00], [present >= 5.00] and [available <= present],
    then after any sequence of constructions, destructions and caught
    updates whose arguments are numbers, all live objects still do. *)
Theorem run_keeps_invariant (acts : list Action) : forall (m m' : Machine),
  all_valid m ->
  forallb nan_free acts = true ->
  run acts m = (Returned tt, m') ->
  all_valid m'.
Proof.
  induction acts as [|act rest IH]; intros m m' Hm Hnan H.
  - injection H as <-. exact Hm.
  - simpl in Hnan. apply andb_prop in Hnan as [Hact Hrest].
    apply run_cons_returned in H as (m1 & H1 & H2).
    eapply IH; [|exact Hrest|exact H2].
    eapply perform_all_valid; eassumption.
Qed.

Lemma run_keeps_invariant_witness :
  all_valid (snd (run three_minus_one boot)).
Proof.
  apply (run_keeps_invariant three_minus_one boot (snd (run three_minus_one boot))).
  - intros i o Hi. vm_compute in Hi. discriminate.
  - vm_compute. reflexivity.
  - vm_compute. reflexivity.
Defined.

(** ** [print()] and the cases of [main] that only use the vector *)

Section Console.

Variable show : double -> string.

Lemma say_nil (m : Machine) : say [] m = m.
Proof. unfold say. rewrite app_nil_r. destruct m; reflexivity. Qed.

Lemma say_say (t1 t2 : list string) (m : Machine) :
  say t2 (say t1 m) = say (t1 ++ t2)%list m.
Proof. unfold say; simpl. rewrite <- app_assoc. reflexivity. Qed.

Lemma print_say (s : string) (m : Machine) : print s m = (Returned tt, say [s] m).
Proof. reflexivity. Qed.

Lemma bind_print {A} (s : string) (k : unit -> Exec A) (m : Machine) :
  bind (print s) k m = k tt (say [s] m).
Proof. reflexivity. Qed.

Lemma BankAccount_print_eq (this : addr) (o : BankAccount) (m : Machine) :
  objects m !! this = Some o ->
  BankAccount_print show this m = (Returned tt, say (printout show o) m).
Proof.
  intros Ho. unfold BankAccount_print, bind, print, read_available_, read_present_;
    simpl. rewrite Ho; simpl. rewrite Ho; simpl.
  unfold say, printout. rewrite <- !app_assoc. reflexivity.
Qed.

Lemma BankAccount_print_dead (this : addr) (m : Machine) :
  objects m !! this = None ->
  fst (BankAccount_print show this m) = Undefined.
Proof.
  intros Ho. unfold BankAccount_print, bind, print, read_available_; simpl.
  rewrite Ho. reflexivity.
Qed.

Lemma listing_say (text : list string) (m : Machine) (v : list addr) :
  forall i : nat, listing show (say text m) i v = listing show m i v.
Proof.
  induction v as [|this rest IH]; intros i; simpl; [reflexivity|].
  destruct (objects m !! this); [|reflexivity]. rewrite IH. reflexivity.
Qed.

Lemma list_from_eq (v : list addr) : forall (i : nat) (m : Machine),
  (forall this, this ∈ v -> is_Some (objects m !! this)) ->
  list_from show i v m = (Returned tt, say (listing show m i v) m).
Proof.
  induction v as [|this rest IH]; intros i m Hlive.
  - simpl. unfold ret. rewrite say_nil. reflexivity.
  - destruct (Hlive this) as [o Ho]; [left|].
    simpl. rewrite Ho. rewrite !bind_print.
    unfold bind at 1. rewrite (BankAccount_print_eq this o) by exact Ho.
    rewrite IH.
    + rewrite !say_say, !listing_say. reflexivity.
    + intros x Hx. simpl. apply Hlive. right. exact Hx.
Qed.

End Console.

Section UpdateCase.

Variable show : double -> string.

Lemma setAccount_say (this : addr) (a p : double) (text : list string) (m : Machine) :
  setAccount this a p (say text m)
  = (fst (setAccount this a p m), say text (snd (setAccount this a p m))).
Proof.
  rewrite !setAccount_eq. destruct (rejection a p); [reflexivity|].
  simpl. destruct (objects m !! this); reflexivity.
Qed.

Lemma main_case3_in_range (v : list addr) (idx : nat) (this : addr) (a p : double)
  (o : BankAccount) (m : Machine) :
  v !! idx = Some this ->
  objects m !! this = Some o ->
  main_case3 show v idx a p m
  = match setAccount this a p m with
    | (Returned _, m1) =>
        (Returned tt,
         say (update_prompt v ++ printout show o
              ++ ["Update OK. After update: "]
              ++ printout show {| available_ := a; present_ := p |})%list m1)
    | (Thrown e, _) =>
        (Returned tt,
         say (update_prompt v ++ printout show o
              ++ ["[Update blocked] "; what e;
                  String.append " -> object left unchanged." newline;
                  "After failed update: "]
              ++ printout show o)%list m)
    | (Undefined, m1) => (Undefined, m1)
    end.
Proof.
  intros Hidx Ho.
  assert (Hlt : (idx < length v)%nat) by (eapply lookup_lt_Some; exact Hidx).
  unfold main_case3. destruct v as [|x v']; [discriminate|].
  rewrite !bind_print.
  destruct (length (x :: v') <=? idx)%nat eqn:Hle;
    [apply Nat.leb_le in Hle; lia|].
  rewrite !bind_print. unfold bind at 1. unfold at_index at 1. rewrite Hidx.
  rewrite (BankAccount_print_eq show this o) by exact Ho.
  unfold try_catch, bind at 1. unfold at_index at 1. rewrite Hidx.
  rewrite !say_say, setAccount_say, setAccount_eq.
  destruct (rejection a p) as [e|] eqn:Hr; simpl.
  - rewrite !bind_print. unfold at_index. rewrite Hidx.
    rewrite (BankAccount_print_eq show this o) by exact Ho.
    rewrite !say_say. reflexivity.
  - rewrite Ho; simpl. rewrite !bind_print. unfold at_index. rewrite Hidx.
    rewrite (BankAccount_print_eq show this {| available_ := a; present_ := p |})
      by apply lookup_insert_eq.
    rewrite !say_say. unfold say, with_objects; simpl.
    rewrite <- ?app_assoc. reflexivity.
Qed.

Lemma main_case3_out_of_range_aux (v : list addr) (idx : nat) (a p : double)
  (m : Machine) :
  (length v <= idx)%nat ->
  exists text, main_case3 show v idx a p m = (Returned tt, say text m).
Proof.
  intros Hle. unfold main_case3. destruct v as [|x v'].
  - eexists. reflexivity.
  - rewrite !bind_print. apply Nat.leb_le in Hle. rewrite Hle.
    rewrite print_say, !say_say. eexists. reflexivity.
Qed.

End UpdateCase.

(** X9.  [case 3] checks its bounds: on an empty vector, or with an
    index that is not below the size of the vector, it returns after its
    message ("No accounts yet..." or "Invalid index."), whatever the two
    balances are; no object and not the counter is touched. *)
Theorem main_case3_out_of_range (show : double -> string) (v : list addr)
  (idx : nat) (a p : double) (m : Machine) :
  (length v <= idx)%nat ->
  exists m',
    main_case3 show v idx a p m = (Returned tt, m')
    /\ objects m' = objects m
    /\ getObjectCount m' = getObjectCount m
    /\ cout m'
       = (cout m
          ++ match v with
             | [] => [String.append "No accounts yet. Create one first (option 2)."
                        newline]
             | _ :: _ => ["Choose account index [0.."; show_size (length v - 1);
                          "]: "; String.append "Invalid index." newline]
             end)%list.
Proof.
  intros Hle. unfold main_case3. destruct v as [|x v'].
  - eexists. split; [reflexivity|]. repeat split.
  - rewrite !bind_print. apply Nat.leb_le in Hle. rewrite Hle.
    eexists. split; [reflexivity|]. repeat split. simpl.
    rewrite <- !app_assoc. reflexivity.
Qed.

Lemma main_case3_out_of_range_witness :
  exists m',
    main_case3 show_class [slot0; slot1] 2 d15 d30 two_accounts = (Returned tt, m')
    /\ objects m' = objects two_accounts
    /\ getObjectCount m' = getObjectCount two_accounts
    /\ cout m'
       = (cout two_accounts
          ++ ["Choose account index [0.."; show_size (length [slot0; slot1] - 1);
              "]: "; String.append "Invalid index." newline])%list.
Proof.
  apply (main_case3_out_of_range show_class [slot0; slot1] 2 d15 d30 two_accounts).
  simpl. lia.
Defined.

(** X10.  A refused update in [case 3] shows the account unchanged: when
    [setAccount] throws [e] for the chosen account, [case 3] returns
    normally, the machine differs from the one before only by the text
    written, and that text shows the account twice, before and after
    the attempt, with the same five pieces of [print()], around the
    message of [e]. *)
Theorem main_case3_rejected (show : double -> string) (v : list addr) (idx : nat)
  (this : addr) (a p : double) (o : BankAccount) (m m0 : Machine)
  (e : BankAccountException) :
  v !! idx = Some this ->
  objects m !! this = Some o ->
  setAccount this a p m = (Thrown e, m0) ->
  main_case3 show v idx a p m
  = (Returned tt,
     say (update_prompt v ++ printout show o
          ++ ["[Update blocked] "; what e;
              String.append " -> object left unchanged." newline;
              "After failed update: "]
          ++ printout show o)%list m).
Proof.
  intros Hidx Ho Hthrow.
  rewrite (main_case3_in_range show v idx this a p o m Hidx Ho), Hthrow.
  reflexivity.
Qed.

Lemma main_case3_rejected_witness :
  main_case3 show_class [slot0; slot1] 0 d1 d20 two_accounts
  = (Returned tt,
     say (update_prompt [slot0; slot1]
          ++ printout show_class {| available_ := d10; present_ := d20 |}
          ++ ["[Update blocked] "; what below_available;
              String.append " -> object left unchanged." newline;
              "After failed update: "]
          ++ printout show_class {| available_ := d10; present_ := d20 |})%list
       two_accounts).
Proof.
  apply (main_case3_rejected show_class [slot0; slot1] 0 slot0 d1 d20
           {| available_ := d10; present_ := d20 |} two_accounts two_accounts
           below_available); vm_compute; reflexivity.
Defined.

(** X11.  An accepted update in [case 3] changes the chosen account and
    nothing else: when [setAccount] returns for the chosen account,
    [case 3] returns normally, the account holds [a] and [p], every
    other object and the counter are as before, and the text written
    shows the old values, then "Update OK." and the new values. *)
Theorem main_case3_accepted (show : double -> string) (v : list addr) (idx : nat)
  (this : addr) (a p : double) (o : BankAccount) (m m1 : Machine) :
  v !! idx = Some this ->
  objects m !! this = Some o ->
  setAccount this a p m = (Returned tt, m1) ->
  exists m',
    main_case3 show v idx a p m = (Returned tt, m')
    /\ objects m' !! this = Some {| available_ := a; present_ := p |}
    /\ (forall other : addr, other <> this -> objects m' !! other = objects m !! other)
    /\ getObjectCount m' = getObjectCount m
    /\ cout m'
       = (cout m ++ update_prompt v ++ printout show o
          ++ ["Update OK. After update: "]
          ++ printout show {| available_ := a; present_ := p |})%list.
Proof.
  intros Hidx Ho Hret.
  rewrite (main_case3_in_range show v idx this a p o m Hidx Ho), Hret.
  apply setAccount_returned in Hret as [_ ->].
  eexists. split; [reflexivity|]. simpl.
  split; [apply lookup_insert_eq|]. split; [|split; reflexivity].
  intros other Hne. apply lookup_insert_ne. congruence.
Qed.

Lemma main_case3_accepted_witness :
  exists m',
    main_case3 show_class [slot0; slot1] 1 d15 d30 two_accounts = (Returned tt, m')
    /\ objects m' !! slot1 = Some {| available_ := d15; present_ := d30 |}
    /\ (forall other : addr,
          other <> slot1 -> objects m' !! other = objects two_accounts !! other)
    /\ getObjectCount m' = getObjectCount two_accounts
    /\ cout m'
       = (cout two_accounts ++ update_prompt [slot0; slot1]
          ++ printout show_class defaults
          ++ ["Update OK. After update: "]
          ++ printout show_class {| available_ := d15; present_ := d30 |})%list.
Proof.
  apply (main_case3_accepted show_class [slot0; slot1] 1 slot1 d15 d30 defaults
           two_accounts (snd (setAccount slot1 d15 d30 two_accounts)));
    vm_compute; reflexivity.
Defined.

(** X12.  [case 4] only reads: when every element of the vector is
    alive it returns normally and the machine differs from the one
    before only by the text written, which is "(no accounts)" for an
    empty vector and otherwise one line per element, in the order of
    the vector and numbered from 0, with the balances that element
    holds. *)
Theorem main_case4_lists (show : double -> string) (v : list addr) (m : Machine) :
  (forall this : addr, this ∈ v -> is_Some (objects m !! this)) ->
  main_case4 show v m
  = (Returned tt,
     say match v with
         | [] => [String.append "(no accounts)" newline]
         | _ :: _ => listing show m 0 v
         end m)
  /\ length (listing show m 0 v) = (7 * length v)%nat.
Proof.
  intros Hlive. split.
  - unfold main_case4. destruct v as [|x v']; [reflexivity|].
    apply list_from_eq. exact Hlive.
  - assert (H : forall i : nat, length (listing show m i v) = (7 * length v)%nat);
      [|apply H].
    induction v as [|x v' IH]; intros i; [reflexivity|].
    destruct (Hlive x) as [o Ho]; [left|].
    simpl listing. rewrite Ho. simpl length. rewrite IH.
    + lia.
    + intros y Hy. apply Hlive. right. exact Hy.
Qed.

Lemma main_case4_lists_witness :
  main_case4 show_class [slot0; slot1] two_accounts
  = (Returned tt, say (listing show_class two_accounts 0 [slot0; slot1]) two_accounts)
  /\ length (listing show_class two_accounts 0 [slot0; slot1])
     = (7 * length [slot0; slot1])%nat.
Proof.
  apply (main_case4_lists show_class [slot0; slot1] two_accounts).
  intros this Hin.
  apply elem_of_cons in Hin as [->|Hin]; [vm_compute; eauto|].
  apply elem_of_cons in Hin as [->|Hin]; [vm_compute; eauto|].
  inversion Hin.
Defined.

(** ** The vector of [main] *)

Section Vector.

Lemma run_cons_eq (act : Action) (rest : list Action) (m m1 : Machine) :
  perform act m = (Returned tt, m1) -> run (act :: rest) m = run rest m1.
Proof. intros H. simpl. unfold bind. rewrite H. reflexivity. Qed.

Lemma perform_NewCopy (d s : addr) (src : BankAccount) (m : Machine) :
  objects m !! d = None -> objects m !! s = Some src ->
  perform (NewCopy d s) m = (Returned tt, constructed d src [] m)
  /\ perform (NewMove d s) m = (Returned tt, constructed d src [] m).
Proof.
  intros Hd Hs.
  assert (Hcopy : BankAccount_copy d s m = (Returned tt, constructed d src [] m)).
  { rewrite BankAccount_copy_eq, Hs. reflexivity. }
  split; unfold perform, bind, require_fresh; rewrite Hd; exact Hcopy.
Qed.

Lemma perform_Destroy (s : addr) (m : Machine) :
  is_Some (objects m !! s) ->
  perform (Destroy s) m
  = (Returned tt,
     {| s_count := int_decr (s_count m); objects := delete s (objects m);
        cout := cout m |}).
Proof.
  intros [o Ho]. unfold perform. rewrite BankAccount_dtor_eq, Ho. reflexivity.
Qed.

Lemma contents_ext (m m' : Machine) (v : list addr) :
  (forall x : addr, x ∈ v -> objects m' !! x = objects m !! x) ->
  contents m' v = contents m v.
Proof.
  induction v as [|x v IH]; intros H; [reflexivity|].
  unfold contents; simpl. rewrite (H x) by left. f_equal.
  apply IH. intros y Hy. apply H. right. exact Hy.
Qed.

Lemma relocate_spec (src : list addr) : forall (dst : list addr) (m : Machine),
  length dst = length src ->
  NoDup src -> NoDup dst ->
  (forall x : addr, x ∈ dst -> x ∉ src) ->
  (forall x : addr, x ∈ src -> is_Some (objects m !! x)) ->
  (forall x : addr, x ∈ dst -> objects m !! x = None) ->
  in_int (s_count m) ->
  exists m',
    run (relocate dst src) m = (Returned tt, m')
    /\ s_count m' = s_count m
    /\ cout m' = cout m
    /\ contents m' dst = contents m src
    /\ (forall x : addr, x ∈ dst -> is_Some (objects m' !! x))
    /\ (forall x : addr, x ∈ src -> objects m' !! x = None)
    /\ (forall x : addr, x ∉ dst -> x ∉ src -> objects m' !! x = objects m !! x).
Proof.
  induction src as [|s ss IH]; intros dst m Hlen Hsrc Hdst Hdisj Hlive Hfree Hint.
  - destruct dst; [|discriminate]. exists m.
    repeat split; try reflexivity; intros x Hx; inversion Hx.
  - destruct dst as [|d ds]; [discriminate|].
    apply NoDup_cons in Hsrc as [Hs Hss]. apply NoDup_cons in Hdst as [Hd Hds].
    destruct (Hlive s) as [o Ho]; [left|].
    assert (Hds_src : d <> s).
    { intros ->. apply (Hdisj s); left. }
    set (m1 := {| s_count := s_count m;
                  objects := delete s (<[d := o]> (objects m));
                  cout := cout m |}).
    assert (Hstep : run (relocate (d :: ds) (s :: ss)) m = run (relocate ds ss) m1).
    { simpl relocate.
      destruct (perform_NewCopy d s o m) as [_ Hmove];
        [apply Hfree; left|exact Ho|].
      rewrite (run_cons_eq _ _ _ _ Hmove).
      erewrite run_cons_eq.
      2:{ apply perform_Destroy. simpl.
          rewrite lookup_insert_ne by exact Hds_src. eauto. }
      unfold m1. simpl. rewrite int_decr_incr by exact Hint.
      rewrite app_nil_r. reflexivity. }
    assert (Hm1 : forall x : addr, x <> s -> x <> d ->
                                   objects m1 !! x = objects m !! x).
    { intros x Hxs Hxd. simpl.
      rewrite lookup_delete_ne, lookup_insert_ne by congruence. reflexivity. }
    destruct (IH ds m1) as (m' & Hrun & Hc & Ho' & Hcont & Hnew & Hold & Hframe).
    + simpl in Hlen. lia.
    + exact Hss.
    + exact Hds.
    + intros x Hx Hx'. apply (Hdisj x); right; assumption.
    + intros x Hx. rewrite Hm1.
      * apply Hlive. right. exact Hx.
      * intros ->. contradiction.
      * intros ->. apply (Hdisj d); [left|right; exact Hx].
    + intros x Hx. rewrite Hm1.
      * apply Hfree. right. exact Hx.
      * intros ->. apply (Hdisj s); [right; exact Hx|left].
      * intros ->. contradiction.
    + exact Hint.
    + assert (Hd' : objects m' !! d = Some o).
      { rewrite Hframe.
        - simpl. rewrite lookup_delete_ne by congruence. apply lookup_insert_eq.
        - exact Hd.
        - intros Hin. apply (Hdisj d); [left|right; exact Hin]. }
      assert (Hs' : objects m' !! s = None).
      { rewrite Hframe.
        - simpl. apply lookup_delete_eq.
        - intros Hin. apply (Hdisj s); [right; exact Hin|left].
        - exact Hs. }
      exists m'. rewrite Hstep. split; [exact Hrun|].
      split; [exact Hc|]. split; [exact Ho'|]. split; [|split; [|split]].
      * unfold contents in *. simpl. rewrite Hd', Ho, Hcont. f_equal.
        apply contents_ext. intros x Hx. apply Hm1.
        -- intros ->. contradiction.
        -- intros ->. apply (Hdisj d); [left|right; exact Hx].
      * intros x Hx. apply elem_of_cons in Hx as [->|Hx]; [eauto|apply Hnew, Hx].
      * intros x Hx. apply elem_of_cons in Hx as [->|Hx]; [exact Hs'|apply Hold, Hx].
      * intros x Hx1 Hx2.
        apply not_elem_of_cons in Hx1 as [Hxd Hx1].
        apply not_elem_of_cons in Hx2 as [Hxs Hx2].
        rewrite Hframe by assumption. apply Hm1; assumption.
Qed.

End Vector.

Section PushBack.

Lemma contents_app (m : Machine) (v w : list addr) :
  contents m (v ++ w)%list = (contents m v ++ contents m w)%list.
Proof. unfold contents. apply map_app. Qed.

(** [push_back] of a live object [x] that is no element, into a vector
    whose elements, with [x], are all the live objects, all below
    [base]. *)
Lemma push_back_spec (grows : bool) (v : list addr) (x base : addr)
  (src : BankAccount) (m : Machine) :
  NoDup v ->
  (forall i : addr, i ∈ v -> (i < base)%nat) ->
  (x < base)%nat -> x ∉ v ->
  objects m !! x = Some src ->
  (forall i : addr, is_Some (objects m !! i) <-> i = x \/ i ∈ v) ->
  exists v' brk' m',
    push_back grows v x base m = (Returned (v', brk'), m')
    /\ s_count m' = int_incr (s_count m)
    /\ cout m' = cout m
    /\ contents m' v' = (contents m v ++ [Some src])%list
    /\ last v' = Some (pred brk')
    /\ objects m' !! pred brk' = Some src
    /\ length v' = S (length v)
    /\ NoDup v'
    /\ (forall i : addr, i ∈ v' -> (i < brk')%nat)
    /\ (base < brk')%nat
    /\ (x ∉ v')
    /\ objects m' !! x = Some src
    /\ (forall i : addr, is_Some (objects m' !! i) <-> i = x \/ i ∈ v').
Proof.
  intros Hnd Hlt Hx Hxv Hsrc Hlive.
  assert (Hfree : forall i : addr, (base <= i)%nat -> objects m !! i = None).
  { intros i Hi. destruct (objects m !! i) eqn:E; [|reflexivity].
    assert (His : is_Some (objects m !! i)) by (rewrite E; eauto).
    apply Hlive in His as [->|Hin]; [lia|]. apply Hlt in Hin. lia. }
  unfold push_back. destruct grows.
  - set (slot := (base + length v)%nat). set (block := seq base (length v)).
    set (m1 := constructed slot src [] m).
    destruct (perform_NewCopy slot x src m) as [Hcopy _];
      [apply Hfree; unfold slot; lia|exact Hsrc|].
    assert (Hm1 : forall i : addr, i <> slot -> objects m1 !! i = objects m !! i).
    { intros i Hi. simpl. apply lookup_insert_ne. congruence. }
    assert (Hblock : forall i : addr, i ∈ block -> (base <= i < slot)%nat).
    { intros i Hi. apply elem_of_seq in Hi. unfold slot. lia. }
    destruct (relocate_spec v block m1)
      as (m' & Hrun & Hc & Ho & Hcont & Hnew & Hold & Hframe).
    + apply length_seq.
    + exact Hnd.
    + apply NoDup_seq.
    + intros i Hi Hiv. apply Hblock in Hi. apply Hlt in Hiv. lia.
    + intros i Hi. rewrite Hm1.
      * apply Hlive. right. exact Hi.
      * apply Hlt in Hi. unfold slot. lia.
    + intros i Hi. apply Hblock in Hi. rewrite Hm1 by lia. apply Hfree. lia.
    + apply in_int_wrap.
    + assert (Hslot : objects m' !! slot = Some src).
      { rewrite Hframe.
        - apply lookup_insert_eq.
        - intros Hi. apply Hblock in Hi. lia.
        - intros Hi. apply Hlt in Hi. unfold slot in Hi. lia. }
      assert (Hx' : objects m' !! x = Some src).
      { rewrite Hframe.
        - rewrite Hm1 by (unfold slot; lia). exact Hsrc.
        - intros Hi. apply Hblock in Hi. lia.
        - exact Hxv. }
      exists (block ++ [slot])%list, (S slot), m'.
      split.
      { unfold bind. rewrite (run_cons_eq _ _ _ _ Hcopy). fold m1.
        rewrite Hrun. reflexivity. }
      split; [rewrite Hc; reflexivity|].
      split; [rewrite Ho; simpl; apply app_nil_r|].
      split.
      { rewrite contents_app, Hcont. f_equal.
        - apply contents_ext. intros i Hi. apply Hm1.
          apply Hlt in Hi. unfold slot. lia.
        - unfold contents; simpl. rewrite Hslot. reflexivity. }
      split; [apply last_snoc|].
      split; [exact Hslot|].
      split; [unfold block; rewrite length_app, length_seq; simpl; lia|].
      split.
      { apply NoDup_app. split; [apply NoDup_seq|]. split.
        - intros i Hi Hi'. apply Hblock in Hi.
          apply list_elem_of_singleton in Hi'. lia.
        - apply NoDup_singleton. }
      split.
      { intros i Hi. apply elem_of_app in Hi as [Hi|Hi].
        - apply Hblock in Hi. lia.
        - apply list_elem_of_singleton in Hi. lia. }
      split; [unfold slot; lia|].
      split.
      { intros Hi. apply elem_of_app in Hi as [Hi|Hi].
        - apply Hblock in Hi. lia.
        - apply list_elem_of_singleton in Hi. unfold slot in Hi. lia. }
      split; [exact Hx'|].
      intros i. split.
      * intros His.
        destruct (decide (i ∈ block)) as [Hib|Hib];
          [right; apply elem_of_app; left; exact Hib|].
        destruct (decide (i ∈ v)) as [Hiv|Hiv].
        { rewrite (Hold i Hiv) in His. destruct His; discriminate. }
        rewrite Hframe in His by assumption.
        destruct (decide (i = slot)) as [->|Hne].
        { right. apply elem_of_app. right. left. }
        rewrite Hm1 in His by exact Hne.
        apply Hlive in His as [->|Hi]; [left; reflexivity|contradiction].
      * intros [->|Hi]; [rewrite Hx'; eauto|].
        apply elem_of_app in Hi as [Hi|Hi]; [apply Hnew, Hi|].
        apply list_elem_of_singleton in Hi as ->. rewrite Hslot. eauto.
  - set (m1 := constructed base src [] m).
    destruct (perform_NewCopy base x src m) as [Hcopy _];
      [apply Hfree; lia|exact Hsrc|].
    assert (Hm1 : forall i : addr, i <> base -> objects m1 !! i = objects m !! i).
    { intros i Hi. simpl. apply lookup_insert_ne. congruence. }
    exists (v ++ [base])%list, (S base), m1.
    split.
    { unfold bind. rewrite (run_cons_eq _ _ _ _ Hcopy). reflexivity. }
    split; [reflexivity|]. split; [simpl; apply app_nil_r|].
    split.
    { rewrite contents_app. f_equal.
      - apply contents_ext. intros i Hi. apply Hm1. apply Hlt in Hi. lia.
      - unfold contents; simpl. rewrite lookup_insert_eq. reflexivity. }
    split; [apply last_snoc|].
    split; [simpl; apply lookup_insert_eq|].
    split; [rewrite length_app; simpl; lia|].
    split.
    { apply NoDup_app. split; [exact Hnd|]. split.
      - intros i Hi Hi'. apply Hlt in Hi.
        apply list_elem_of_singleton in Hi'. lia.
      - apply NoDup_singleton. }
    split.
    { intros i Hi. apply elem_of_app in Hi as [Hi|Hi].
      - apply Hlt in Hi. lia.
      - apply list_elem_of_singleton in Hi. lia. }
    split; [lia|].
    split.
    { intros Hi. apply elem_of_app in Hi as [Hi|Hi]; [contradiction|].
      apply list_elem_of_singleton in Hi. lia. }
    split; [rewrite Hm1 by lia; exact Hsrc|].
    intros i. split.
    * intros His. destruct (decide (i = base)) as [->|Hne].
      { right. apply elem_of_app. right. left. }
      rewrite Hm1 in His by exact Hne.
      apply Hlive in His as [->|Hi]; [left; reflexivity|].
      right. apply elem_of_app. left. exact Hi.
    * intros [->|Hi].
      { rewrite Hm1 by lia. rewrite Hsrc. eauto. }
      apply elem_of_app in Hi as [Hi|Hi].
      { rewrite Hm1 by (apply Hlt in Hi; lia). apply Hlive. right. exact Hi. }
      apply list_elem_of_singleton in Hi as ->. simpl.
      rewrite lookup_insert_eq. eauto.
Qed.

End PushBack.

(** ** [case 2] and the loop of [main] *)

Section MainLoop.

Variable show : double -> string.

Lemma consistent_boot : consistent boot {| accounts := []; brk := 0%nat |}.
Proof.
  unfold consistent; simpl. split; [apply NoDup_nil_2|].
  split; [intros i Hi; inversion Hi|]. split; [|reflexivity].
  intros i. split.
  - intros Hi. inversion Hi.
  - rewrite lookup_empty. intros [o Ho]. discriminate.
Qed.

(** A step that keeps the counter and which objects are alive keeps
    the machine consistent with the vector. *)
Lemma consistent_same (m m' : Machine) (s : Session) :
  consistent m s ->
  s_count m' = s_count m ->
  (forall i : addr, is_Some (objects m' !! i) <-> is_Some (objects m !! i)) ->
  consistent m' s.
Proof.
  intros (Hnd & Hlt & Hlive & Hc) Hc' Hlive'.
  split; [exact Hnd|]. split; [exact Hlt|]. split; [|congruence].
  intros i. rewrite Hlive'. apply Hlive.
Qed.

Lemma consistent_say (text : list string) (m : Machine) (s : Session) :
  consistent m s -> consistent (say text m) s.
Proof. intros H. apply (consistent_same m); [exact H|reflexivity|reflexivity]. Qed.

Lemma consistent_in_int (m : Machine) (s : Session) :
  consistent m s -> in_int (s_count m).
Proof. intros (_ & _ & _ & ->). apply in_int_wrap. Qed.

Lemma printMenu_eq (m : Machine) :
  exists text, printMenu m = (Returned tt, say text m).
Proof.
  unfold printMenu. rewrite !bind_print, print_say, !say_say.
  eexists. reflexivity.
Qed.

Lemma main_case1_eq (m : Machine) :
  main_case1 m
  = (Returned tt,
     say ["Objects currently in memory: "; show_int (getObjectCount m); newline] m).
Proof.
  unfold main_case1. rewrite bind_print. unfold bind at 1, call_getObjectCount.
  rewrite !bind_print, print_say, !say_say. reflexivity.
Qed.

(** [case 3] always returns when the elements of the vector are alive,
    and keeps the counter and the set of live objects. *)
Lemma main_case3_returns (v : list addr) (idx : nat) (a p : double) (m : Machine) :
  (forall this : addr, this ∈ v -> is_Some (objects m !! this)) ->
  exists m',
    main_case3 show v idx a p m = (Returned tt, m')
    /\ s_count m' = s_count m
    /\ (forall i : addr, is_Some (objects m' !! i) <-> is_Some (objects m !! i))
    /\ (forall (i : addr) (o : BankAccount),
          objects m' !! i = Some o ->
          objects m !! i = Some o
          \/ (o = {| available_ := a; present_ := p |} /\ rejection a p = None)).
Proof.
  intros Hlive.
  destruct (v !! idx) as [this|] eqn:Hidx.
  - destruct (Hlive this) as [o Ho];
      [eapply list_elem_of_lookup_2; exact Hidx|].
    rewrite (main_case3_in_range show v idx this a p o m Hidx Ho).
    rewrite setAccount_eq.
    destruct (rejection a p) as [e|] eqn:Hr.
    + eexists. split; [reflexivity|]. split; [reflexivity|].
      split; [reflexivity|]. intros i o' Hi. left. exact Hi.
    + rewrite Ho. eexists. split; [reflexivity|]. split; [reflexivity|]. split.
      * intros i. simpl. destruct (decide (this = i)) as [->|Hne].
        -- rewrite lookup_insert_eq, Ho. split; eauto.
        -- rewrite lookup_insert_ne by exact Hne. reflexivity.
      * intros i o' Hi. simpl in Hi. destruct (decide (this = i)) as [->|Hne].
        -- rewrite lookup_insert_eq in Hi. injection Hi as <-. right. auto.
        -- rewrite lookup_insert_ne in Hi by exact Hne. left. exact Hi.
  - apply lookup_ge_None in Hidx.
    destruct (main_case3_out_of_range_aux show v idx a p m Hidx) as (text & ->).
    eexists. split; [reflexivity|]. split; [reflexivity|].
    split; [reflexivity|]. intros i o' Hi. left. exact Hi.
Qed.

Lemma main_case2_spec (a p : double) (grows : bool) (s : Session) (m : Machine) :
  consistent m s ->
  exists (o : BankAccount) (text : list string) (s' : Session) (m' : Machine),
    BankAccount_values (brk s) a p m = (Returned tt, constructed (brk s) o text m)
    /\ main_case2 show a p grows s m = (Returned s', m')
    /\ consistent m' s'
    /\ length (accounts s') = S (length (accounts s))
    /\ contents m' (accounts s') = (contents m (accounts s) ++ [Some o])%list
    /\ cout m'
       = (cout m
          ++ ["Enter available and present balances: "; "Count before create: ";
              show_int (getObjectCount m); newline]
          ++ text ++ ["Created: "] ++ printout show o
          ++ ["Count after create: "; show_int (int_wrap (getObjectCount m + 2));
              newline])%list
    /\ ((o = {| available_ := a; present_ := p |} /\ rejection a p = None)
        \/ o = defaults).
Proof.
  intros Hcons. pose proof (consistent_in_int m s Hcons) as Hint.
  destruct Hcons as (Hnd & Hlt & Hlive & Hc).
  set (acc := brk s). set (v := accounts s).
  assert (Haccv : acc ∉ v).
  { intros Hin. apply Hlt in Hin. unfold acc in Hin. lia. }
  assert (Hfresh : objects m !! acc = None).
  { destruct (objects m !! acc) eqn:E; [|reflexivity].
    exfalso. apply Haccv. apply Hlive. rewrite E. eauto. }
  assert (Hvalues : exists o text,
             (forall m0 : Machine,
                BankAccount_values acc a p m0
                = (Returned tt, constructed acc o text m0))
             /\ ((o = {| available_ := a; present_ := p |} /\ rejection a p = None)
                 \/ o = defaults)).
  { destruct (rejection a p) eqn:Hr; do 2 eexists;
      (split; [intros m0; rewrite BankAccount_values_eq, Hr; reflexivity|]); auto. }
  destruct Hvalues as (o & text & Hvalues & Ho).
  exists o, text.
  set (t0 := ["Enter available and present balances: "; "Count before create: ";
              show_int (getObjectCount m); newline]).
  set (m1 := constructed acc o text (say t0 m)).
  assert (Hperform : perform (NewValues acc a p) (say t0 m) = (Returned tt, m1)).
  { unfold perform, bind, require_fresh. simpl objects. rewrite Hfresh.
    apply Hvalues. }
  destruct (push_back_spec grows v acc (S acc) o m1)
    as (v' & brk' & m2 & Hpush & Hc2 & Ho2 & Hcont & Hlast & Hback & Hlen & Hnd'
        & Hlt' & Hbrk & Haccv' & Hacc2 & Hlive2).
  { exact Hnd. }
  { intros i Hi. apply Hlt in Hi. unfold acc. lia. }
  { lia. }
  { exact Haccv. }
  { apply lookup_insert_eq. }
  { intros i. unfold m1. simpl. destruct (decide (acc = i)) as [<-|Hne].
    - rewrite lookup_insert_eq. split; eauto.
    - rewrite lookup_insert_ne by exact Hne. rewrite <- Hlive. fold v.
      split; [auto|]. intros [->|Hi]; [contradiction|exact Hi]. }
  set (t2 := (["Created: "] ++ printout show o
              ++ ["Count after create: "; show_int (getObjectCount m2); newline])%list).
  set (m' := {| s_count := int_decr (s_count m2);
                objects := delete acc (objects m2);
                cout := (cout m2 ++ t2)%list |}).
  exists {| accounts := v'; brk := brk' |}, m'.
  assert (Hcount2 : s_count m2 = int_wrap (s_count m + 2)).
  { rewrite Hc2. simpl. unfold int_incr. rewrite int_wrap_add_l. f_equal. lia. }
  split; [apply Hvalues|]. split; [|split; [|split; [|split; [|split]]]].
  - unfold main_case2. rewrite bind_print. unfold bind at 1, call_getObjectCount.
    rewrite !bind_print. rewrite !say_say. fold acc v. simpl getObjectCount.
    change (say _ m) with (say t0 m).
    unfold bind at 1. rewrite Hperform.
    unfold bind at 1. rewrite Hpush. simpl fst. simpl snd.
    rewrite bind_print. rewrite Hlast.
    unfold bind at 1. rewrite (BankAccount_print_eq show (pred brk') o) by exact Hback.
    unfold bind at 1. rewrite !bind_print. rewrite !say_say.
    unfold bind at 1. rewrite perform_Destroy by (simpl; rewrite Hacc2; eauto).
    reflexivity.
  - split; [exact Hnd'|]. split; [exact Hlt'|]. split.
    + intros i. simpl. split.
      * intros Hi. rewrite lookup_delete_ne by (intros <-; contradiction).
        apply Hlive2. right. exact Hi.
      * intros His. destruct (decide (acc = i)) as [<-|Hne].
        -- rewrite lookup_delete_eq in His. destruct His; discriminate.
        -- rewrite lookup_delete_ne in His by exact Hne.
           apply Hlive2 in His as [->|Hi]; [contradiction|exact Hi].
    + simpl. rewrite Hc2. rewrite int_decr_incr by (simpl; apply in_int_wrap).
      simpl. rewrite Hc. unfold int_incr. rewrite int_wrap_add_l, Hlen. fold v.
      f_equal. lia.
  - simpl. exact Hlen.
  - simpl accounts. fold v.
    transitivity (contents m2 v').
    + apply contents_ext. intros i Hi. simpl.
      apply lookup_delete_ne. intros <-. contradiction.
    + rewrite Hcont. f_equal. apply contents_ext. intros i Hi. simpl.
      apply lookup_insert_ne. intros <-. contradiction.
  - unfold m'. simpl cout. rewrite Ho2. unfold t2, getObjectCount.
    rewrite Hcount2. unfold m1, constructed, say, t0, getObjectCount. simpl cout.
    rewrite <- ?app_assoc. reflexivity.
  - exact Ho.
Qed.

End MainLoop.

Section Sessions.

Variable show : double -> string.

Lemma contents_elem (m : Machine) (v : list addr) (x : option BankAccount) :
  x ∈ contents m v -> exists i : addr, i ∈ v /\ x = objects m !! i.
Proof.
  induction v as [|j v IH]; intros Hx; [inversion Hx|].
  unfold contents in Hx. simpl in Hx. apply elem_of_cons in Hx as [->|Hx].
  - exists j. split; [left|reflexivity].
  - destruct (IH Hx) as (i & Hi & ->). exists i. split; [right; exact Hi|reflexivity].
Qed.

Lemma elem_contents (m : Machine) (v : list addr) (i : addr) :
  i ∈ v -> objects m !! i ∈ contents m v.
Proof.
  induction v as [|j v IH]; intros Hi; [inversion Hi|].
  unfold contents. simpl. apply elem_of_cons in Hi as [->|Hi]; [left|right].
  apply IH, Hi.
Qed.

Lemma main_case2_valid (a p : double) (grows : bool) (s s' : Session)
  (m m' : Machine) :
  consistent m s -> all_valid m ->
  is_nan a = false -> is_nan p = false ->
  main_case2 show a p grows s m = (Returned s', m') ->
  all_valid m'.
Proof.
  intros Hcons Hvalid Ha Hp Hrun.
  destruct (main_case2_spec show a p grows s m Hcons)
    as (o & text & s1 & m1 & _ & Hrun1 & Hcons1 & _ & Hcont & _ & Ho).
  rewrite Hrun in Hrun1. injection Hrun1 as <- <-.
  assert (Hov : invariant o = true).
  { destruct Ho as [[-> Hr]| ->];
      [apply invariant_accepted; assumption|apply invariant_defaults]. }
  intros i o' Hi.
  assert (Hin : i ∈ accounts s').
  { apply Hcons1. rewrite Hi. eauto. }
  pose proof (elem_contents m' (accounts s') i Hin) as Hel.
  rewrite Hcont, Hi in Hel. apply elem_of_app in Hel as [Hel|Hel].
  - apply contents_elem in Hel as (j & _ & Hj). eapply Hvalid. symmetry. exact Hj.
  - apply list_elem_of_singleton in Hel. injection Hel as ->. exact Hov.
Qed.

Lemma main_loop_spec (input : list Entry) : forall (s : Session) (m : Machine),
  consistent m s ->
  exists (s' : Session) (m' : Machine),
    main_loop show input s m = (Returned s', m')
    /\ consistent m' s'
    /\ length (accounts s') = (length (accounts s) + creations input)%nat
    /\ (forallb entry_nan_free input = true -> all_valid m -> all_valid m').
Proof.
  induction input as [|e rest IH]; intros s m Hcons.
  - destruct (printMenu_eq m) as [text Hmenu].
    exists s, (say text m). simpl. unfold bind. rewrite Hmenu.
    split; [reflexivity|]. split; [apply consistent_say, Hcons|].
    split; [lia|]. intros _ Hv. exact Hv.
  - destruct (printMenu_eq m) as [text Hmenu].
    pose proof (consistent_say text m s Hcons) as Hcons0.
    simpl main_loop. unfold bind at 1. rewrite Hmenu. simpl creations.
    simpl forallb.
    destruct (opt e =? 1)%Z eqn:E1.
    { assert (E5 : (opt e =? 5)%Z = false) by lia.
      assert (E2 : (opt e =? 2)%Z = false) by lia. rewrite E5, E2.
      unfold bind at 1. rewrite main_case1_eq.
      match goal with
      | |- context [main_loop show rest s ?m0] =>
          destruct (IH s m0) as (s' & m' & Hrun & Hc & Hlen & Hval);
          [apply consistent_say, Hcons0|]
      end.
      exists s', m'. split; [exact Hrun|]. split; [exact Hc|]. split; [exact Hlen|].
      intros Hnan Hv. apply andb_prop in Hnan as [_ Hnan]. apply Hval; assumption. }
    destruct (opt e =? 2)%Z eqn:E2.
    { assert (E5 : (opt e =? 5)%Z = false) by lia. rewrite E5.
      destruct (main_case2_spec show (in_a e) (in_p e) (grows e) s (say text m) Hcons0)
        as (o & t & s1 & m1 & _ & Hrun1 & Hcons1 & Hlen1 & _).
      unfold bind at 1. rewrite Hrun1.
      destruct (IH s1 m1 Hcons1) as (s' & m' & Hrun & Hc & Hlen & Hval).
      exists s', m'. split; [exact Hrun|]. split; [exact Hc|]. split; [lia|].
      intros Hnan Hv. apply andb_prop in Hnan as [Hnan_e Hnan].
      apply Hval; [exact Hnan|].
      apply nan_free_args in Hnan_e as [Ha Hp].
      eapply main_case2_valid; [exact Hcons0|exact Hv|exact Ha|exact Hp|exact Hrun1]. }
    destruct (opt e =? 3)%Z eqn:E3.
    { assert (E5 : (opt e =? 5)%Z = false) by lia. rewrite E5.
      destruct (main_case3_returns show (accounts s) (in_idx e) (in_a e) (in_p e)
                  (say text m))
        as (m1 & Hrun1 & Hc1 & Hlive1 & Hobj1).
      { intros this Hin. apply Hcons0. exact Hin. }
      unfold bind at 1. rewrite Hrun1.
      destruct (IH s m1) as (s' & m' & Hrun & Hc & Hlen & Hval).
      { apply (consistent_same (say text m)); assumption. }
      exists s', m'. split; [exact Hrun|]. split; [exact Hc|]. split; [exact Hlen|].
      intros Hnan Hv. apply andb_prop in Hnan as [Hnan_e Hnan].
      apply Hval; [exact Hnan|].
      apply nan_free_args in Hnan_e as [Ha Hp].
      intros i o Hi. destruct (Hobj1 i o Hi) as [Hold|[-> Hr]].
      - eapply Hv. exact Hold.
      - apply invariant_accepted; assumption. }
    destruct (opt e =? 4)%Z eqn:E4.
    { assert (E5 : (opt e =? 5)%Z = false) by lia. rewrite E5.
      assert (Hrun1 : exists t, main_case4 show (accounts s) (say text m)
                                = (Returned tt, say t (say text m))).
      { unfold main_case4. destruct (accounts s) as [|x v'] eqn:Ev.
        - rewrite print_say. eauto.
        - rewrite list_from_eq; [eauto|].
          intros this Hin. apply Hcons0. rewrite Ev. exact Hin. }
      destruct Hrun1 as [t Hrun1]. unfold bind at 1. rewrite Hrun1.
      match goal with
      | |- context [main_loop show rest s ?m0] =>
          destruct (IH s m0) as (s' & m' & Hrun & Hc & Hlen & Hval);
          [apply consistent_say, Hcons0|]
      end.
      exists s', m'. split; [exact Hrun|]. split; [exact Hc|]. split; [exact Hlen|].
      intros Hnan Hv. apply andb_prop in Hnan as [_ Hnan]. apply Hval; assumption. }
    destruct (opt e =? 5)%Z eqn:E5.
    { rewrite bind_print. do 2 eexists.
      split; [reflexivity|]. split; [apply consistent_say, Hcons0|].
      split; [lia|]. intros _ Hv. exact Hv. }
    rewrite bind_print.
    match goal with
    | |- context [main_loop show rest s ?m0] =>
        destruct (IH s m0) as (s' & m' & Hrun & Hc & Hlen & Hval);
        [apply consistent_say, Hcons0|]
    end.
    exists s', m'. split; [exact Hrun|]. split; [exact Hc|]. split; [exact Hlen|].
    intros Hnan Hv. apply andb_prop in Hnan as [_ Hnan]. apply Hval; assumption.
Qed.

(** The destructor of the vector leaves no object and no count. *)
Lemma destroy_all_spec (v : list addr) : forall (m : Machine),
  in_int (s_count m) ->
  NoDup v ->
  (forall i : addr, i ∈ v <-> is_Some (objects m !! i)) ->
  exists m',
    destroy_all v m = (Returned tt, m')
    /\ objects m' = ∅
    /\ cout m' = cout m
    /\ s_count m' = int_wrap (s_count m - Z.of_nat (length v)).
Proof.
  unfold destroy_all.
  induction v as [|x v IH]; intros m Hint Hnd Hlive.
  - exists m. split; [reflexivity|]. split; [|split; [reflexivity|]].
    + apply map_eq. intros i. rewrite lookup_empty.
      destruct (objects m !! i) eqn:E; [|reflexivity].
      assert (His : is_Some (objects m !! i)) by (rewrite E; eauto).
      apply Hlive in His. inversion His.
    + simpl. rewrite Z.sub_0_r, int_wrap_id by exact Hint. reflexivity.
  - apply NoDup_cons in Hnd as [Hx Hnd].
    assert (Hstep : perform (Destroy x) m
                    = (Returned tt,
                       {| s_count := int_decr (s_count m);
                          objects := delete x (objects m); cout := cout m |})).
    { apply perform_Destroy, Hlive. left. }
    destruct (IH {| s_count := int_decr (s_count m);
                    objects := delete x (objects m); cout := cout m |})
      as (m' & Hrun & Hobj & Hout & Hc).
    + apply in_int_wrap.
    + exact Hnd.
    + intros i. simpl. split.
      * intros Hi. rewrite lookup_delete_ne by (intros <-; contradiction).
        apply Hlive. right. exact Hi.
      * intros His. destruct (decide (x = i)) as [<-|Hne].
        -- rewrite lookup_delete_eq in His. destruct His; discriminate.
        -- rewrite lookup_delete_ne in His by exact Hne.
           apply Hlive in His. apply elem_of_cons in His as [->|His];
             [contradiction|exact His].
    + exists m'. split; [|split; [exact Hobj|split; [exact Hout|]]].
      * change (map Destroy (x :: v)) with (Destroy x :: map Destroy v).
        rewrite (run_cons_eq _ _ _ _ Hstep). exact Hrun.
      * rewrite Hc. simpl s_count. unfold int_decr.
        replace (int_wrap (s_count m - 1) - Z.of_nat (length v))
          with (int_wrap (s_count m - 1) + - Z.of_nat (length v)) by lia.
        rewrite int_wrap_add_l. f_equal. simpl length. lia.
Qed.

End Sessions.

(** X13.  Option 2 of the menu always creates an account.  From a state
    in which the live objects are exactly the elements of the vector,
    [case 2] returns normally whatever the two balances are and whether
    or not the vector reallocates; the vector has one more element, the
    last, holding what [BankAccount(a, p)] constructs (the two balances,
    or the defaults after a rejection), and the elements before it keep
    their values in their order.  The text reports the count before
    and, as "Count after create", that count plus 2, because the local
    [acc] is still alive; once the case is left the counter has gone up
    by one increment and the live objects are again exactly the
    elements of the vector. *)
Theorem main_case2_appends (show : double -> string) (a p : double) (grows : bool)
  (s : Session) (m : Machine) :
  consistent m s ->
  exists (o : BankAccount) (text : list string) (s' : Session) (m' : Machine),
    BankAccount_values (brk s) a p m = (Returned tt, constructed (brk s) o text m)
    /\ main_case2 show a p grows s m = (Returned s', m')
    /\ consistent m' s'
    /\ contents m' (accounts s') = (contents m (accounts s) ++ [Some o])%list
    /\ getObjectCount m' = int_incr (getObjectCount m)
    /\ cout m'
       = (cout m
          ++ ["Enter available and present balances: "; "Count before create: ";
              show_int (getObjectCount m); newline]
          ++ text ++ ["Created: "] ++ printout show o
          ++ ["Count after create: "; show_int (int_wrap (getObjectCount m + 2));
              newline])%list.
Proof.
  intros Hcons.
  destruct (main_case2_spec show a p grows s m Hcons)
    as (o & text & s' & m' & Hctor & Hrun & Hcons' & Hlen & Hcont & Hout & _).
  exists o, text, s', m'. repeat (split; [assumption|]). split; [|exact Hout].
  destruct Hcons as (_ & _ & _ & Hc). destruct Hcons' as (_ & _ & _ & Hc').
  unfold getObjectCount, int_incr. rewrite Hc', Hc, int_wrap_add_l, Hlen.
  f_equal. lia.
Qed.

Lemma main_case2_appends_witness :
  exists (o : BankAccount) (text : list string) (s' : Session) (m' : Machine),
    BankAccount_values (brk {| accounts := []; brk := 0%nat |}) d3 d20 boot
    = (Returned tt,
       constructed (brk {| accounts := []; brk := 0%nat |}) o text boot)
    /\ main_case2 show_class d3 d20 true {| accounts := []; brk := 0%nat |} boot
       = (Returned s', m')
    /\ consistent m' s'
    /\ contents m' (accounts s')
       = (contents boot (accounts {| accounts := []; brk := 0%nat |}) ++ [Some o])%list
    /\ getObjectCount m' = int_incr (getObjectCount boot)
    /\ cout m'
       = (cout boot
          ++ ["Enter available and present balances: "; "Count before create: ";
              show_int (getObjectCount boot); newline]
          ++ text ++ ["Created: "] ++ printout show_class o
          ++ ["Count after create: "; show_int (int_wrap (getObjectCount boot + 2));
              newline])%list.
Proof.
  apply (main_case2_appends show_class d3 d20 true
           {| accounts := []; brk := 0%nat |} boot).
  apply consistent_boot.
Defined.

(** X14.  Between two iterations of the menu loop there is exactly one
    live [BankAccount] per element of the vector.  From a state where
    this holds, the loop returns normally on every input (no exception
    escapes, no dead object is used); afterwards the live objects are
    again exactly the elements of the vector, each once, the vector has
    grown by the number of option 2 iterations executed (no account is
    ever removed), and the counter is the size of the vector reduced to
    an [int], hence equal to it while it does not exceed [INT_MAX]. *)
Theorem main_loop_one_object_per_account (show : double -> string)
  (input : list Entry) (s : Session) (m : Machine) :
  consistent m s ->
  exists (s' : Session) (m' : Machine),
    main_loop show input s m = (Returned s', m')
    /\ NoDup (accounts s')
    /\ (forall i : addr, i ∈ accounts s' <-> is_Some (objects m' !! i))
    /\ length (accounts s') = (length (accounts s) + creations input)%nat
    /\ getObjectCount m' = int_wrap (Z.of_nat (length (accounts s')))
    /\ (Z.of_nat (length (accounts s')) <= INT_MAX ->
        getObjectCount m' = Z.of_nat (length (accounts s'))).
Proof.
  intros Hcons.
  destruct (main_loop_spec show input s m Hcons)
    as (s' & m' & Hrun & (Hnd & _ & Hlive & Hc) & Hlen & _).
  exists s', m'. split; [exact Hrun|]. split; [exact Hnd|]. split; [exact Hlive|].
  split; [exact Hlen|]. split; [exact Hc|].
  intros Hmax. unfold getObjectCount. rewrite Hc. apply int_wrap_id.
  unfold in_int, INT_MIN. lia.
Qed.

Lemma main_loop_one_object_per_account_witness :
  exists (s' : Session) (m' : Machine),
    main_loop show_class sample_input {| accounts := []; brk := 0%nat |} boot
    = (Returned s', m')
    /\ NoDup (accounts s')
    /\ (forall i : addr, i ∈ accounts s' <-> is_Some (objects m' !! i))
    /\ length (accounts s')
       = (length (accounts {| accounts := []; brk := 0%nat |})
          + creations sample_input)%nat
    /\ getObjectCount m' = int_wrap (Z.of_nat (length (accounts s')))
    /\ (Z.of_nat (length (accounts s')) <= INT_MAX ->
        getObjectCount m' = Z.of_nat (length (accounts s'))).
Proof.
  apply (main_loop_one_object_per_account show_class sample_input
           {| accounts := []; brk := 0%nat |} boot).
  apply consistent_boot.
Defined.

(** X15.  The menu loop keeps the invariant of the data model as long
    as no NaN is entered: if every live object satisfies the three
    invariants and the balances of every iteration are numbers, every
    live object satisfies them after the loop. *)
Theorem main_loop_keeps_invariant (show : double -> string) (input : list Entry)
  (s s' : Session) (m m' : Machine) :
  consistent m s ->
  all_valid m ->
  forallb entry_nan_free input = true ->
  main_loop show input s m = (Returned s', m') ->
  all_valid m'.
Proof.
  intros Hcons Hvalid Hnan Hrun.
  destruct (main_loop_spec show input s m Hcons)
    as (s1 & m1 & Hrun1 & _ & _ & Hval).
  rewrite Hrun in Hrun1. injection Hrun1 as <- <-.
  apply Hval; assumption.
Qed.

Lemma main_loop_keeps_invariant_witness :
  all_valid
    (snd (main_loop show_class sample_input {| accounts := []; brk := 0%nat |} boot)).
Proof.
  apply (main_loop_keeps_invariant show_class sample_input
           {| accounts := []; brk := 0%nat |}
           (fst_session
              (main_loop show_class sample_input {| accounts := []; brk := 0%nat |} boot))
           boot).
  - apply consistent_boot.
  - intros i o Hi. vm_compute in Hi. discriminate.
  - vm_compute. reflexivity.
  - vm_compute. reflexivity.
Defined.

(** X16.  [main] ends clean on every input: it returns normally, and
    when it returns, be it after option 5 or at the end of the input, the
    vector has been destroyed, no [BankAccount] is alive and the counter
    is back at 0. *)
Theorem main_exits_clean (show : double -> string) (input : list Entry) :
  exists m',
    main show input boot = (Returned tt, m')
    /\ objects m' = ∅
    /\ getObjectCount m' = 0.
Proof.
  destruct (main_loop_spec show input {| accounts := []; brk := 0%nat |} boot
              consistent_boot)
    as (s' & m1 & Hrun & Hcons & _).
  pose proof (consistent_in_int m1 s' Hcons) as Hint.
  destruct Hcons as (Hnd & _ & Hlive & Hc).
  destruct (destroy_all_spec (accounts s') m1 Hint Hnd Hlive)
    as (m' & Hdestroy & Hobj & _ & Hc').
  exists m'. split; [|split; [exact Hobj|]].
  - unfold main, bind. rewrite Hrun. exact Hdestroy.
  - unfold getObjectCount. rewrite Hc', Hc.
    replace (int_wrap (Z.of_nat (length (accounts s'))) - Z.of_nat (length (accounts s')))
      with (int_wrap (Z.of_nat (length (accounts s')))
            + - Z.of_nat (length (accounts s'))) by lia.
    rewrite int_wrap_add_l.
    replace (Z.of_nat (length (accounts s')) + - Z.of_nat (length (accounts s')))
      with 0 by lia.
    reflexivity.
Qed.

(** X17.  Option 1 of the menu shows the number of accounts: in a state
    where the live objects are exactly the elements of the vector (as
    between any two iterations of the loop) and the vector holds at
    most [INT_MAX] accounts, [case 1] writes that number in decimal and
    changes nothing else. *)
Theorem main_case1_shows_accounts (s : Session) (m : Machine) :
  consistent m s ->
  Z.of_nat (length (accounts s)) <= INT_MAX ->
  main_case1 m
  = (Returned tt,
     say ["Objects currently in memory: ";
          show_int (Z.of_nat (length (accounts s))); newline] m).
Proof.
  intros (_ & _ & _ & Hc) Hmax. rewrite main_case1_eq.
  unfold getObjectCount. rewrite Hc, int_wrap_id; [reflexivity|].
  unfold in_int, INT_MIN. lia.
Qed.

Lemma main_case1_shows_accounts_witness :
  main_case1 boot
  = (Returned tt,
     say ["Objects currently in memory: ";
          show_int (Z.of_nat (length (accounts {| accounts := []; brk := 0%nat |})));
          newline] boot).
Proof.
  apply (main_case1_shows_accounts {| accounts := []; brk := 0%nat |} boot).
  - apply consistent_boot.
  - simpl. unfold INT_MAX. lia.
Defined.

Example session_on_the_model :
  fst (main_loop show_class sample_input {| accounts := []; brk := 0%nat |} boot)
  = Returned {| accounts := [3; 4]%nat; brk := 5%nat |}
  /\ contents
       (snd (main_loop show_class sample_input {| accounts := []; brk := 0%nat |} boot))
       [3; 4]%nat
     = [Some {| available_ := d10; present_ := d20 |};
        Some {| available_ := d15; present_ := d30 |}].
Proof. split; vm_compute; reflexivity. Qed.
